(** * DailyAsmaBot: the Telegram lesson bot, embedded and verified

    The development follows the bot script of the repository (the file with
    [formatChunks], [sendLessonAssets], [sendLessonToUser] and
    [deliverDailyLessons]).  It has three parts:

    - [Chunker]: the pure function [formatChunks] over UTF-16 strings;
    - [Startup]: the module-level loading code ([readJsonFile],
      [loadLessons], [loadVideos], the checks on the progress file);
    - [Bot]: the handlers and the daily job, as programs of a small
      state-and-exception monad over a world that holds [progress.users],
      the disk copy of the progress file and the trace of every call made
      to the Telegram client, to the file system and to the console. *)

From Stdlib Require Import ZArith NArith Lia Ascii.
From stdpp Require Import base option list strings gmap fin_maps pretty.

Open Scope Z_scope.

(** ** JavaScript strings

    A JavaScript string is a sequence of UTF-16 code units; [length],
    [slice], [lastIndexOf] and [trim] all count and compare code units. *)

Definition jsstring : Type := list N.

(** The ASCII fragment, to write examples. *)
Definition js (s : string) : jsstring :=
  (fun a => N.of_nat (Ascii.nat_of_ascii a)) <$> String.list_ascii_of_string s.

(** ** JavaScript values read from JSON files

    [JSON.parse] yields [null], booleans, numbers, strings, arrays and plain
    objects.  Numbers are kept at the integers, which is what the bot stores
    and compares. *)

#[local] Set Warnings "-register-all".

Inductive json : Type :=
  | JNull
  | JBool (b : bool)
  | JNumber (n : Z)
  | JString (s : jsstring)
  | JArray (items : list json)
  | JObject (members : gmap string json).

(** [typeof v] *)
Definition typeof (v : json) : string :=
  match v with
  | JNull | JArray _ | JObject _ => "object"
  | JBool _ => "boolean"
  | JNumber _ => "number"
  | JString _ => "string"
  end.

(** [Array.isArray(v)] *)
Definition isArray (v : json) : bool :=
  match v with JArray _ => true | _ => false end.

(** Truthiness of a value, and of a property read that may give
    [undefined]. *)
Definition truthy (v : json) : bool :=
  match v with
  | JNull => false
  | JBool b => b
  | JNumber n => negb (n =? 0)
  | JString s => match s with [] => false | _ => true end
  | JArray _ | JObject _ => true
  end.

Definition truthyProperty (v : option json) : bool :=
  match v with Some v => truthy v | None => false end.

(** ** Errors and results

    What the script can throw: an error of Node's file system (with its
    [code], such as [ENOENT]), a [SyntaxError] of [JSON.parse], an error of
    the Telegram client (with its [code]), or an [Error] made by the script
    itself with a message. *)

Inductive jsError : Type :=
  | SystemError (code : string)
  | SyntaxError
  | TelegramError (code : string)
  | Error (message : string).

(** [error.code] *)
Definition errorCode (e : jsError) : option string :=
  match e with
  | SystemError code | TelegramError code => Some code
  | SyntaxError | Error _ => None
  end.

Definition isENOENT (e : jsError) : bool :=
  match errorCode e with Some code => String.eqb code "ENOENT" | None => false end.

Inductive result (A : Type) : Type :=
  | Ok (a : A)
  | Throw (e : jsError).
Arguments Ok {A} a.
Arguments Throw {A} e.

Module Chunker.

(** [String.prototype.trim] strips WhiteSpace and LineTerminator code points:
    TAB, LF, VT, FF, CR, SP, NBSP, U+1680, U+2000..U+200A, LS, PS, U+202F,
    U+205F, U+3000 and the BOM U+FEFF. *)
Definition isWhiteSpace (c : N) : bool :=
  ((9 <=? c) && (c <=? 13) || (c =? 32) || (c =? 160) || (c =? 5760)
   || (8192 <=? c) && (c <=? 8202) || (c =? 8232) || (c =? 8233)
   || (c =? 8239) || (c =? 8287) || (c =? 12288) || (c =? 65279))%N.

Fixpoint trimStart (s : jsstring) : jsstring :=
  match s with
  | c :: rest => if isWhiteSpace c then trimStart rest else s
  | [] => []
  end.

Definition trimEnd (s : jsstring) : jsstring := rev (trimStart (rev s)).

Definition trim (s : jsstring) : jsstring := trimEnd (trimStart s).

(** [text.slice(from, to)] for indices [0 <= from] and [0 <= to]: the code
    units at positions [from .. to-1], empty when [to <= from], cut at the
    end of the string. *)
Definition slice (text : jsstring) (from to : nat) : jsstring :=
  take (to - from) (drop from text).

(** [text.lastIndexOf(c, fromIndex)] for a one-unit search string: the
    greatest position [i <= fromIndex] with [text[i] = c], and [-1] when
    there is none.  [scanLast] walks the string from position [pos] and
    remembers the last match seen. *)
Fixpoint scanLast (c : N) (text : jsstring) (pos fromIndex : nat) (found : Z) : Z :=
  match text with
  | [] => found
  | x :: rest =>
      if (fromIndex <? pos)%nat then found
      else scanLast c rest (S pos) fromIndex
             (if (x =? c)%N then Z.of_nat pos else found)
  end.

Definition lastIndexOf (text : jsstring) (c : N) (fromIndex : nat) : Z :=
  scanLast c text 0 fromIndex (-1).

Definition MAX_MESSAGE_LENGTH : nat := 4096.

Definition LF : N := 10.
Definition SP : N := 32.

(** A string is truthy when it is not empty. *)
Definition truthyString (s : jsstring) : bool :=
  match s with [] => false | _ => true end.

(** The [while] loop of [formatChunks], one iteration per unit of [fuel].
    The limit is an argument so that the loop can be run on short texts; the
    bot calls it with [MAX_MESSAGE_LENGTH].  [None] means that the fuel ran
    out before the loop ended. *)
Fixpoint formatLoop (limit fuel : nat) (text : jsstring) (start : nat)
    (chunks : list jsstring) : option (list jsstring) :=
  if negb (start <? length text)%nat then Some chunks
  else
    match fuel with
    | O => None
    | S fuel' =>
        let remaining := (length text - start)%nat in
        if (remaining <=? limit)%nat
        then Some (chunks ++ [trim (slice text start (length text))])
        else
          let tentativeEnd := (start + limit)%nat in
          let splitIndex := lastIndexOf text LF tentativeEnd in
          let splitIndex :=
            if splitIndex <=? Z.of_nat start
            then lastIndexOf text SP tentativeEnd else splitIndex in
          let splitIndex :=
            if splitIndex <=? Z.of_nat start
            then Z.of_nat tentativeEnd else splitIndex in
          let segment := trim (slice text start (Z.to_nat splitIndex)) in
          let chunks :=
            if truthyString segment then chunks ++ [segment] else chunks in
          formatLoop limit fuel' text (Z.to_nat splitIndex) chunks
    end.

(** The whole function with an explicit limit: the loop, then
    [chunks.filter(Boolean)]. *)
Definition formatChunksAt (limit : nat) (text : jsstring) : option (list jsstring) :=
  filter (fun c => truthyString c = true) <$>
    formatLoop limit (S (length text)) text 0 [].

(** [formatChunks]: every iteration moves [start] forward, so
    [text.length + 1] iterations are enough ([formatLoop_total] below); the
    [None] branch is never taken. *)
Definition formatChunks (text : jsstring) : list jsstring :=
  default [] (formatChunksAt MAX_MESSAGE_LENGTH text).

(** What the claim about the chunker speaks of: a text that is the chunks in
    order, with a run of white space before, between and after them. *)
Fixpoint weave (gaps chunks : list jsstring) : jsstring :=
  match gaps, chunks with
  | g :: gaps', c :: chunks' => g ++ c ++ weave gaps' chunks'
  | g :: _, [] => g
  | [], _ => []
  end.

Definition allWhiteSpace (s : jsstring) : Prop := Forall (fun c => isWhiteSpace c = true) s.

(** Where the loop cuts: strictly after [start], at most [limit] further. *)
Definition splitPoint (limit : nat) (text : jsstring) (start : nat) : Z :=
  let tentativeEnd := (start + limit)%nat in
  let splitIndex := lastIndexOf text LF tentativeEnd in
  let splitIndex :=
    if splitIndex <=? Z.of_nat start
    then lastIndexOf text SP tentativeEnd else splitIndex in
  if splitIndex <=? Z.of_nat start then Z.of_nat tentativeEnd else splitIndex.

End Chunker.


(** ** Start-up: the module-level code that loads the three files *)

Module Startup.

(** What is on disk at a path, as [fs.readFile] and [JSON.parse] see it:
    either the read fails with an error (code [ENOENT] when there is no such
    file), or it gives a text, kept here as what [JSON.parse] makes of it:
    a value, or nothing when the text is not JSON. *)
Inductive fileState : Type :=
  | Unreadable (e : jsError)
  | Readable (parsed : option json).

Definition NoSuchFile : fileState := Unreadable (SystemError "ENOENT").

Definition readFile (file : fileState) : result (option json) :=
  match file with
  | Unreadable e => Throw e
  | Readable contents => Ok contents
  end.

Definition JSON_parse (contents : option json) : result json :=
  match contents with
  | Some v => Ok v
  | None => Throw SyntaxError
  end.

Definition bind {A B} (m : result A) (k : A -> result B) : result B :=
  match m with Ok a => k a | Throw e => Throw e end.

Definition tryCatch {A} (body : result A) (handler : jsError -> result A) : result A :=
  match body with Ok a => Ok a | Throw e => handler e end.

Definition readJsonFile (file : fileState) (fallback : json) : result json :=
  tryCatch
    (bind (readFile file) JSON_parse)
    (fun error => if isENOENT error then Ok fallback else Throw error).

Definition TOTAL_AUDIO_FILES : nat := 100.
Definition TOTAL_IMAGE_FILES : nat := 99.

Section Paths.
Variables LESSONS_PATH VIDEOS_PATH PROGRESS_PATH : string.

Definition loadLessons (lessonsFile : fileState) : result (list json) :=
  bind (readJsonFile lessonsFile (JArray [])) (fun data =>
    match data with
    | JArray data =>
        let limited :=
          take (TOTAL_IMAGE_FILES `min` (TOTAL_AUDIO_FILES `min` length data))%nat data in
        if (length limited =? 0)%nat
        then Throw (Error ("No lessons found in " +:+ LESSONS_PATH))
        else Ok limited
    | _ =>
        Throw (Error ("Expected an array in " +:+ LESSONS_PATH +:+
                      ", received " +:+ typeof data))
    end).

(** The videos and the lines given to [console.warn]. *)
Definition loadVideos (videosFile : fileState) (lessonCount : nat)
    : result (list json * list string) :=
  bind (readJsonFile videosFile (JArray [])) (fun data =>
    match data with
    | JArray data => Ok (take lessonCount data, [])
    | _ =>
        Ok ([], ["Ignoring videos: expected an array in " +:+ VIDEOS_PATH +:+
                 ", received " +:+ typeof data])
    end).

(** [progress.users] *)
Definition usersOf (progress : gmap string json) : option json :=
  progress !! "users".

(** The progress object after the two checks that follow the read: a
    value that is not a plain object is refused; a [users] member that is
    missing, falsy or not of type object is replaced by [{}]. *)
Definition checkProgress (progress : json) : result (gmap string json) :=
  if negb (String.eqb (typeof progress) "object")
     || (match progress with JNull => true | _ => false end)
     || isArray progress
  then Throw (Error ("Corrupted progress file at " +:+ PROGRESS_PATH))
  else
    match progress with
    | JObject members =>
        if negb (truthyProperty (usersOf members))
           || negb (String.eqb (from_option typeof "undefined" (usersOf members)) "object")
        then Ok (<["users" := JObject ∅]> members)
        else Ok members
    | _ => Throw (Error ("Corrupted progress file at " +:+ PROGRESS_PATH))
    end.

(** [Object.keys(v).length] for a member that is an object or an array. *)
Definition keyCount (v : option json) : nat :=
  match v with
  | Some (JObject members) => size members
  | Some (JArray items) => length items
  | _ => 0%nat
  end.

Record inputs : Type := {
  TELEGRAM_BOT_TOKEN : option string;   (* [process.env.TELEGRAM_BOT_TOKEN] *)
  lessonsFile : fileState;
  videosFile : fileState;
  progressFile : fileState;
  mkdirError : option jsError;          (* how [fs.mkdir] of the data directory ends *)
}.

(** The module state once the script has reached its last line: the
    handlers are registered and the daily job is scheduled. *)
Record started : Type := {
  lessons : list json;
  videos : list json;
  progress : gmap string json;
  warnings : list string;
  subscribers : nat;                    (* [Object.keys(progress.users).length], as logged *)
}.

Inductive outcome : Type :=
  | Started (state : started)           (* scheduling has begun *)
  | Crashed (e : jsError)               (* an uncaught error ended the module *)
  | Exited (code : Z).                  (* [process.exit(code)] *)

Definition ensureDirectory (mkdirError : option jsError) : result unit :=
  match mkdirError with Some e => Throw e | None => Ok tt end.

Definition emptyProgress : json := JObject {["users" := JObject ∅]}.

Definition startup (i : inputs) : outcome :=
  match TELEGRAM_BOT_TOKEN i with
  | None | Some "" => Exited 1
  | Some _ =>
      let run :=
        bind (loadLessons (lessonsFile i)) (fun lessons =>
        bind (loadVideos (videosFile i) (length lessons)) (fun '(videos, warnings) =>
        bind (readJsonFile (progressFile i) emptyProgress) (fun progress =>
        bind (checkProgress progress) (fun progress =>
        bind (ensureDirectory (mkdirError i)) (fun _ =>
        Ok {| lessons := lessons; videos := videos; progress := progress;
              warnings := warnings;
              subscribers := keyCount (usersOf progress) |}))))) in
      match run with
      | Ok state => Started state
      | Throw e => Crashed e
      end
  end.

(** The shape the progress file is expected to have:
    [{ users: { <chatIdentity>: { currentLesson, lastSentAt, joinedAt } } }]
    with an integer, a string or [null], and a string. *)
Definition isUserRecord (v : json) : bool :=
  match v with
  | JObject members =>
      match members !! "currentLesson", members !! "lastSentAt", members !! "joinedAt" with
      | Some (JNumber _), Some (JString _ | JNull), Some (JString _) => true
      | _, _, _ => false
      end
  | _ => false
  end.

Definition expectedShape (v : json) : bool :=
  match v with
  | JObject members =>
      match usersOf members with
      | Some (JObject users) =>
          forallb (fun kv => isUserRecord kv.2) (map_to_list users)
      | _ => false
      end
  | _ => false
  end.
(** Whether the second check keeps the [users] member: it does for an
    object and for an array, the two truthy values of type object. *)
Definition keepsUsers (members : gmap string json) : bool :=
  match usersOf members with
  | Some (JObject _ | JArray _) => true
  | _ => false
  end.

(** The steps of [startup] around the read of the progress file go
    through: the token is set, the lessons and the videos load, and the
    data directory can be made. *)
Definition othersGoThrough (i : inputs) (lessons videos : list json)
    (warnings : list string) : Prop :=
  (exists token, TELEGRAM_BOT_TOKEN i = Some token /\ token <> "") /\
  loadLessons (lessonsFile i) = Ok lessons /\
  loadVideos (videosFile i) (length lessons) = Ok (videos, warnings) /\
  mkdirError i = None.
End Paths.

End Startup.

(** ** The bot: handlers, delivery and the daily job *)

Module Bot.
Import Chunker.

(** *** Chat identities

    A chat id is the number of [msg.chat.id] in a handler and the string
    key of [progress.users] in the daily job. *)
Inductive chatId : Type :=
  | ChatNumber (n : Z)
  | ChatString (s : string).

(** [String(value)]; numbers here are integers in the exact range of a
    double, where [String] prints plain decimals. *)
Definition String_ (value : chatId) : string :=
  match value with
  | ChatNumber n => pretty n
  | ChatString s => s
  end.

Definition isDigit (a : ascii) : bool :=
  (48 <=? Ascii.nat_of_ascii a)%nat && (Ascii.nat_of_ascii a <=? 57)%nat.

Fixpoint allDigits (s : string) : bool :=
  match s with
  | EmptyString => true
  | String a rest => isDigit a && allDigits rest
  end.

(** [/^-?\d+$/.test(text)] *)
Definition isIntegerText (text : string) : bool :=
  match text with
  | String "-"%char (String a rest) => allDigits (String a rest)
  | String a rest => allDigits (String a rest)
  | EmptyString => false
  end.

Fixpoint digitsValue (acc : Z) (s : string) : Z :=
  match s with
  | EmptyString => acc
  | String a rest => digitsValue (10 * acc + (Z.of_nat (Ascii.nat_of_ascii a) - 48)) rest
  end.

(** [Number.parseInt(text, 10)] on a text that passed [isIntegerText];
    exact, as the script's is for the texts of integers in the exact range
    of a double. *)
Definition parseInt (text : string) : Z :=
  match text with
  | String "-"%char rest => - digitsValue 0 rest
  | _ => digitsValue 0 text
  end.

Definition normalizeChatId (value : chatId) : chatId :=
  let text := String_ value in
  if isIntegerText text then ChatNumber (parseInt text) else value.

(** *** Data *)

(** A subscriber's record in [progress.users]. *)
Record UserState : Type := {
  currentLesson : Z;
  lastSentAt : option string;
  joinedAt : string;
}.

(** An entry of the videos array; a missing [title] or [url] is [None]. *)
Record VideoMeta : Type := {
  title : option jsstring;
  url : option jsstring;
}.

Definition truthyText (t : option jsstring) : bool :=
  match t with Some (_ :: _) => true | _ => false end.

(** The lines of the video message after [.filter(Boolean)], joined with
    a line feed when sent. *)
Inductive videoLine : Type :=
  | TitleLine (title : jsstring)
  | UrlLine (url : jsstring).

Definition videoCaptionLines (videoMeta : VideoMeta) : list videoLine :=
  (if truthyText (title videoMeta) then [TitleLine (default [] (title videoMeta))] else [])
  ++ (if truthyText (url videoMeta) then [UrlLine (default [] (url videoMeta))] else []).

(** The texts the bot sends, one constructor per template of the script,
    with the values it interpolates. *)
Inductive message : Type :=
  | LessonUnavailable (lessonNumber : Z)
  | LessonChunk (chunk : jsstring)
  | VideoCaption (lines : list videoLine)
  | AllLessonsDone
  | Welcome
  | WelcomeBack (received : Z) (total : nat)
  | HelpText
  | NoProgressFound
  | ProgressReport (received : Z) (total : nat) (next : option Z) (lastSent : option string)
  | LessonOutOfRange (total : nat)
  | LessonOnRequest (lessonRequested : Z).

(** The calls that leave the process: the Telegram client and the file
    system. *)
Inductive call : Type :=
  | sendMessage (chat : chatId) (text : message)
  | sendPhoto (chat : chatId) (imagePath : string) (lessonNumber : Z)
  | sendAudio (chat : chatId) (audioPath : string)
  | access (path : string)
  | writeFile (path : string) (data : gmap string UserState)
  | rename (oldPath newPath : string).

(** What goes to the console. *)
Inductive consoleLine : Type :=
  | FailedToSendImage (lessonNumber : Z) (e : jsError)
  | FailedToSendAudio (lessonNumber : Z) (e : jsError)
  | FailedToDeliver (lessonNumber : Z) (chat : chatId) (e : jsError)
  | DeliveringDailyLessons (time : string) (subscribers : nat)
  | DailyDeliveryFailed (e : jsError).

Inductive event : Type :=
  | Called (c : call) (failure : option jsError)
  | ConsoleError (line : consoleLine)
  | ConsoleLog (line : consoleLine)
  | Slept (ms : Z).

(** The world the bot runs in: the subscribers in memory, the two files
    [saveProgress] writes, and everything that happened so far, newest
    first. *)
Record World : Type := {
  users : gmap string UserState;
  progressFile : option (gmap string UserState);
  tmpFile : option (gmap string UserState);
  trace : list event;
}.

(** What the code cannot decide: whether a call fails, and with which
    error, and what time it is.  Both may depend on how much has happened
    so far, so that a call can fail once and succeed later. *)
Record Env : Type := {
  failure : nat -> call -> option jsError;
  clock : nat -> string;
}.

(** What start-up leaves for the handlers. *)
Record Config : Type := {
  lessons : list jsstring;
  videos : list (option VideoMeta);
  IMAGES_DIR : string;
  AUDIO_DIR : string;
  PROGRESS_PATH : string;
}.

(** *** The monad: state and exceptions *)

Definition M (A : Type) : Type := World -> result A * World.

Definition ret {A} (a : A) : M A := fun w => (Ok a, w).

Definition bind {A B} (m : M A) (k : A -> M B) : M B :=
  fun w =>
    match m w with
    | (Ok a, w') => k a w'
    | (Throw e, w') => (Throw e, w')
    end.

Definition tryCatch {A} (body : M A) (handler : jsError -> M A) : M A :=
  fun w =>
    match body w with
    | (Ok a, w') => (Ok a, w')
    | (Throw e, w') => handler e w'
    end.

Notation "'let*' x ':=' m 'in' k" := (bind m (fun x => k))
  (at level 10, x pattern, m at level 100, k at level 200).
Notation "m '>>' k" := (bind m (fun _ => k))
  (at level 90, right associativity).

Definition gets {A} (f : World -> A) : M A := fun w => (Ok (f w), w).

Definition record (ev : event) : M unit :=
  fun w => (Ok tt, {| users := users w; progressFile := progressFile w;
                      tmpFile := tmpFile w; trace := ev :: trace w |}).

Definition setUsers (f : gmap string UserState -> gmap string UserState) : M unit :=
  fun w => (Ok tt, {| users := f (users w); progressFile := progressFile w;
                      tmpFile := tmpFile w; trace := trace w |}).

(** [for (const x of items) { body }] *)
Fixpoint forEach {A} (items : list A) (body : A -> M unit) : M unit :=
  match items with
  | [] => ret tt
  | x :: rest => body x >> forEach rest body
  end.

Definition pathJoin (dir file : string) : string := dir +:+ "/" +:+ file.

(** [text.padStart(3, '0')] *)
Definition padStart3 (text : string) : string :=
  match String.length text with
  | 0%nat => "000" +:+ text
  | 1%nat => "00" +:+ text
  | 2%nat => "0" +:+ text
  | _ => text
  end.

Section Program.
Variable env : Env.
Variable cfg : Config.

(** The effect of a call that succeeded on the files. *)
Definition commit (c : call) (w : World) : World :=
  match c with
  | writeFile _ data =>
      {| users := users w; progressFile := progressFile w;
         tmpFile := Some data; trace := trace w |}
  | rename _ _ =>
      {| users := users w; progressFile := tmpFile w;
         tmpFile := None; trace := trace w |}
  | _ => w
  end.

(** [await] of a call: the environment decides whether it fails. *)
Definition perform (c : call) : M unit :=
  fun w =>
    match failure env (length (trace w)) c with
    | Some e => (Throw e, (record (Called c (Some e)) w).2)
    | None => (Ok tt, (record (Called c None) (commit c w)).2)
    end.

(** [new Date().toISOString()] *)
Definition now : M string := gets (fun w => clock env (length (trace w))).

Definition consoleError (line : consoleLine) : M unit := record (ConsoleError line).
Definition consoleLog (line : consoleLine) : M unit := record (ConsoleLog line).

(** [await new Promise((resolve) => setTimeout(resolve, ms))] *)
Definition sleep (ms : Z) : M unit := record (Slept ms).

Definition totalLessons : Z := Z.of_nat (length (lessons cfg)).

(** [lessons[lessonIndex]], [undefined] outside the array. *)
Definition lessonAt (lessonIndex : Z) : option jsstring :=
  if lessonIndex <? 0 then None else lessons cfg !! Z.to_nat lessonIndex.

(** [videos[lessonIndex]], with [null] entries and [undefined] alike. *)
Definition videoAt (lessonIndex : Z) : option VideoMeta :=
  if lessonIndex <? 0 then None else mjoin (videos cfg !! Z.to_nat lessonIndex).

Definition saveProgress : M unit :=
  let tmpPath := PROGRESS_PATH cfg +:+ ".tmp" in
  let* snapshot := gets users in
  perform (writeFile tmpPath snapshot) >>
  perform (rename tmpPath (PROGRESS_PATH cfg)).

(** Returns the key of the record, which stands for the reference to the
    record object that the script returns. *)
Definition ensureUserState (chat : chatId) : M string :=
  let key := String_ chat in
  let* existing := gets (fun w => users w !! key) in
  match existing with
  | Some _ => ret key
  | None =>
      let* joined := now in
      setUsers (insert key {| currentLesson := 0; lastSentAt := None; joinedAt := joined |})
      >> ret key
  end.

(** [userState.currentLesson = value] *)
Definition setCurrentLesson (userState : string) (value : Z) : M unit :=
  setUsers (alter (fun r => {| currentLesson := value; lastSentAt := lastSentAt r;
                                joinedAt := joinedAt r |}) userState).

(** [userState.lastSentAt = value] *)
Definition setLastSentAt (userState : string) (value : string) : M unit :=
  setUsers (alter (fun r => {| currentLesson := currentLesson r; lastSentAt := Some value;
                                joinedAt := joinedAt r |}) userState).

Definition sendLessonAssets (chat : chatId) (lessonIndex : Z) : M unit :=
  let chatRef := normalizeChatId chat in
  let lessonNumber := lessonIndex + 1 in
  match lessonAt lessonIndex with
  | None | Some [] => perform (sendMessage chatRef (LessonUnavailable lessonNumber))
  | Some lessonText =>
      let imagePath :=
        pathJoin (IMAGES_DIR cfg) ("devine-name-" +:+ pretty lessonNumber +:+ ".jpg") in
      tryCatch
        (perform (access imagePath) >>
         perform (sendPhoto chatRef imagePath lessonNumber))
        (fun error =>
           if negb (isENOENT error)
           then consoleError (FailedToSendImage lessonNumber error)
           else ret tt) >>
      let messageChunks := formatChunks lessonText in
      forEach messageChunks (fun chunk =>
        perform (sendMessage chatRef (LessonChunk chunk))) >>
      let audioFilename := "lesson_" +:+ padStart3 (pretty lessonNumber) +:+ ".wav" in
      let audioPath := pathJoin (AUDIO_DIR cfg) audioFilename in
      tryCatch
        (perform (access audioPath) >>
         perform (sendAudio chatRef audioPath))
        (fun error =>
           if negb (isENOENT error)
           then consoleError (FailedToSendAudio lessonNumber error)
           else ret tt) >>
      match videoAt lessonIndex with
      | Some videoMeta =>
          perform (sendMessage chatRef (VideoCaption (videoCaptionLines videoMeta)))
      | None => ret tt
      end
  end.

Definition sendLessonToUser (chat : chatId) (lessonIndex : Z) : M unit :=
  let chatRef := normalizeChatId chat in
  let* userState := ensureUserState chat in
  if lessonIndex >=? totalLessons
  then
    perform (sendMessage chatRef AllLessonsDone) >>
    setCurrentLesson userState totalLessons >>
    saveProgress
  else
    tryCatch
      (sendLessonAssets chat lessonIndex >>
       setCurrentLesson userState (Z.min (lessonIndex + 1) totalLessons) >>
       (let* time := now in setLastSentAt userState time) >>
       saveProgress)
      (fun error => consoleError (FailedToDeliver (lessonIndex + 1) chat error)).

(** [bot.onText(/^\/start$/, ...)], with [msg.chat.id]. *)
Definition onStart (chat : Z) : M unit :=
  let chatId := ChatNumber chat in
  let chatKey := String_ chatId in
  let* existingState := gets (fun w => users w !! chatKey) in
  match existingState with
  | None =>
      ensureUserState chatId >>
      saveProgress >>
      perform (sendMessage chatId Welcome) >>
      sendLessonToUser chatId 0 >>
      perform (sendMessage chatId HelpText)
  | Some existingState =>
      perform (sendMessage chatId
                 (WelcomeBack (Z.min (currentLesson existingState) totalLessons)
                              (length (lessons cfg)))) >>
      perform (sendMessage chatId HelpText)
  end.

(** [bot.onText(/^\/progress$/, ...)] *)
Definition onProgress (chat : Z) : M unit :=
  let chatId := ChatNumber chat in
  let chatKey := String_ chatId in
  let* existingState := gets (fun w => users w !! chatKey) in
  match existingState with
  | None => perform (sendMessage chatId NoProgressFound)
  | Some existingState =>
      let nextLessonNumber := Z.min (currentLesson existingState + 1) totalLessons in
      perform (sendMessage chatId
        (ProgressReport (currentLesson existingState) (length (lessons cfg))
           (if currentLesson existingState >=? totalLessons then None
            else Some nextLessonNumber)
           (lastSentAt existingState)))
  end.

(** [bot.onText(/^\/lesson\s+(\d{1,3})$/, ...)]; [lessonRequested] is the
    number parsed from the one to three digits matched. *)
Definition onLesson (chat : Z) (lessonRequested : Z) : M unit :=
  let chatId := ChatNumber chat in
  if (lessonRequested <? 1) || (lessonRequested >? totalLessons)
  then perform (sendMessage chatId (LessonOutOfRange (length (lessons cfg))))
  else
    perform (sendMessage chatId (LessonOnRequest lessonRequested)) >>
    sendLessonAssets chatId (lessonRequested - 1).

(** [bot.onText(/^\/help$/, ...)] *)
Definition onHelp (chat : Z) : M unit :=
  perform (sendMessage (ChatNumber chat) HelpText).

(** The body of the [for] loop of the daily job for one entry of the
    snapshot.  The entry holds the record object itself, which is the one
    still stored under [chatId] (a record is never replaced or removed),
    so its [currentLesson] is read from the store when its turn comes.
    The records of this model always have a numeric [currentLesson]; the
    first guard of the script only skips entries of another shape. *)
Definition deliverEntry (chatId : string) : M unit :=
  let* state := gets (fun w => users w !! chatId) in
  match state with
  | None => ret tt
  | Some state =>
      if currentLesson state >=? totalLessons then ret tt
      else
        sendLessonToUser (ChatString chatId) (currentLesson state) >>
        sleep 1000
  end.

Definition deliverDailyLessons : M unit :=
  let* userEntries := gets (fun w => map_to_list (users w)) in
  if (length userEntries =? 0)%nat then ret tt
  else
    (let* time := now in
     consoleLog (DeliveringDailyLessons time (length userEntries))) >>
    forEach userEntries (fun '(chatId, _) => deliverEntry chatId).

(** The callback given to [cron.schedule]. *)
Definition dailyJob : M unit :=
  tryCatch deliverDailyLessons (fun error => consoleError (DailyDeliveryFailed error)).
End Program.

(** The operations that can touch a subscriber's record. *)
Inductive operation : Type :=
  | OpStart (chat : Z)
  | OpProgress (chat : Z)
  | OpLesson (chat : Z) (lessonRequested : Z)
  | OpHelp (chat : Z)
  | OpDailyJob.

Definition run (env : Env) (cfg : Config) (op : operation) : M unit :=
  match op with
  | OpStart chat => onStart env cfg chat
  | OpProgress chat => onProgress env cfg chat
  | OpLesson chat lessonRequested => onLesson env cfg chat lessonRequested
  | OpHelp chat => onHelp env chat
  | OpDailyJob => dailyJob env cfg
  end.

(** The world at start: the subscribers read from the progress file. *)
Definition initialWorld (stored : gmap string UserState) (onDisk : bool) : World :=
  {| users := stored; progressFile := if onDisk then Some stored else None;
     tmpFile := None; trace := [] |}.

(** The chat a call of the Telegram client is addressed to. *)
Definition addressee (c : call) : option chatId :=
  match c with
  | sendMessage chat _ | sendPhoto chat _ _ | sendAudio chat _ => Some chat
  | access _ | writeFile _ _ | rename _ _ => None
  end.

(** A send of a lesson chunk that failed: to whom, and with which error. *)
Definition failedChunkSend (ev : event) : option (chatId * jsError) :=
  match ev with
  | Called (sendMessage chat (LessonChunk _)) (Some e) => Some (chat, e)
  | _ => None
  end.

(** The record after a delivery of [lessonIndex] that went through. *)
Definition advanced (state : UserState) (lessonIndex : Z) (time : string) : UserState :=
  {| currentLesson := lessonIndex + 1; lastSentAt := Some time; joinedAt := joinedAt state |}.

(** What the daily job leaves of a subscriber that was due with record
    [state], given the events [new] of the run and the record [after] it:
    the lesson went through and the record moved on, or the record is as
    it was and the failure is on the console with the chat and the lesson
    number. *)
Definition processed (chatId : string) (state : UserState) (new : list event)
    (after : option UserState) : Prop :=
  (exists time, after = Some (advanced state (currentLesson state) time)) \/
  (after = Some state /\
   exists e, ConsoleError (FailedToDeliver (currentLesson state + 1) (ChatString chatId) e) ∈ new).

(** The invariant of the subscriber records: every [currentLesson] is
    between [0] and the number of lessons. *)
Definition progressInvariant (cfg : Config) (w : World) : Prop :=
  forall k state, users w !! k = Some state ->
    0 <= currentLesson state <= totalLessons cfg.

(** The events of [w'] that are not yet in [w], newest first. *)
Definition newEvents (w w' : World) : list event :=
  take (length (trace w') - length (trace w)) (trace w').

End Bot.

(** ** Concrete configurations, environments and worlds *)

Module Scenario.
Import Bot.

Definition missing : option jsError := Some (SystemError "ENOENT").
Definition refused : option jsError := Some (TelegramError "ETELEGRAM").

(** Every file is there and every call goes through. *)
Definition smooth : Env :=
  {| failure := fun _ _ => None; clock := fun n => "T" +:+ pretty n |}.

(** No image and no audio on disk; every other call goes through. *)
Definition calm : Env :=
  {| failure := fun _ c => match c with access _ => missing | _ => None end;
     clock := fun n => "T" +:+ pretty n |}.

(** As [calm], but every lesson chunk sent to chat 1 is refused. *)
Definition chunksToOneFail : Env :=
  {| failure := fun _ c =>
       match c with
       | access _ => missing
       | sendMessage (ChatNumber 1) (LessonChunk _) => refused
       | _ => None
       end;
     clock := fun n => "T" +:+ pretty n |}.

(** As [calm], but the message with the video link is refused. *)
Definition videoFails : Env :=
  {| failure := fun _ c =>
       match c with
       | access _ => missing
       | sendMessage _ (VideoCaption _) => refused
       | _ => None
       end;
     clock := fun n => "T" +:+ pretty n |}.

Definition video : VideoMeta :=
  {| title := Some (js "99 names"); url := Some (js "https://example.org/v") |}.

Definition threeLessons : Config :=
  {| lessons := [js "one"; js "two"; js "three"];
     videos := [Some video; Some video; Some video];
     IMAGES_DIR := "images"; AUDIO_DIR := "tts_audio";
     PROGRESS_PATH := "data/user_progress.json" |}.

(** The second lesson is an empty string. *)
Definition gapAtTwo : Config :=
  {| lessons := [js "one"; []; js "three"];
     videos := [];
     IMAGES_DIR := "images"; AUDIO_DIR := "tts_audio";
     PROGRESS_PATH := "data/user_progress.json" |}.

Definition tenLessons : Config :=
  {| lessons := replicate 10 (js "text");
     videos := [];
     IMAGES_DIR := "images"; AUDIO_DIR := "tts_audio";
     PROGRESS_PATH := "data/user_progress.json" |}.

Definition fresh : UserState :=
  {| currentLesson := 0; lastSentAt := None; joinedAt := "T0" |}.

Definition atOne : UserState :=
  {| currentLesson := 1; lastSentAt := Some "T5"; joinedAt := "T0" |}.

Definition twoSubscribers : World :=
  initialWorld (<["1" := fresh]> (<["2" := fresh]> ∅)) true.

Definition oneSubscriber : World :=
  initialWorld (<["7" := fresh]> ∅) true.

Definition subscriberAtOne : World :=
  initialWorld (<["42" := atOne]> ∅) true.

(** The record of a key and its [currentLesson], to read results. *)
Definition lessonOf (w : World) (key : string) : option Z :=
  currentLesson <$> users w !! key.

Definition sentTo (w : World) (key : string) : option (option string) :=
  lastSentAt <$> users w !! key.

(** Start-up inputs: a token, two lessons, no videos file, and a progress
    file in the given state. *)
Definition bootInputs (progress : Startup.fileState) : Startup.inputs :=
  {| Startup.TELEGRAM_BOT_TOKEN := Some "123:ABC";
     Startup.lessonsFile :=
       Startup.Readable (Some (JArray [JString (js "one"); JString (js "two")]));
     Startup.videosFile := Startup.NoSuchFile;
     Startup.progressFile := progress;
     Startup.mkdirError := None |}.

Definition twoLessonTexts : list json := [JString (js "one"); JString (js "two")].

(** The script with its default paths. *)
Definition boot (progress : Startup.fileState) : Startup.outcome :=
  Startup.startup "daily_lessons.json" "asma_ul_husna_videos.json"
    "data/user_progress.json" (bootInputs progress).

(** A progress file whose [users] member is a number. *)
Definition usersIsNumber : json := JObject {["users" := JNumber 5]}.

Definition hundredLessons : list json := replicate 100 (JString (js "lesson")).

End Scenario.

(** ** Notions used to state further properties of the bot *)

Module BotNotions.
Import Bot.

(** An environment in which no [bot.sendMessage] call is rejected. *)
Definition sendsNeverFail (env : Env) : Prop :=
  forall n chat text, failure env n (sendMessage chat text) = None.

(** An environment in which no write of the progress file fails. *)
Definition writesNeverFail (env : Env) : Prop :=
  forall n c,
    match c with writeFile _ _ | rename _ _ => failure env n c = None | _ => True end.

(** The lesson chunk of an event that is a send of one that went through. *)
Definition chunkOf (ev : event) : option jsstring :=
  match ev with
  | Called (sendMessage _ (LessonChunk chunk)) None => Some chunk
  | _ => None
  end.

(** The lesson chunks delivered by a run with events [new] (newest first),
    in the order they were sent. *)
Definition sentChunks (new : list event) : list jsstring :=
  omap chunkOf (rev new).

(** A send, tried or done, of the message that all lessons are done. *)
Definition saysAllDone (ev : event) : bool :=
  match ev with
  | Called (sendMessage _ AllLessonsDone) _ => true
  | _ => false
  end.

(** A call of the Telegram client or of the file system. *)
Definition isCall (ev : event) : bool :=
  match ev with Called _ _ => true | _ => false end.

(** The record [ensureUserState] makes for a new chat at world [w]. *)
Definition newRecord (env : Env) (w : World) : UserState :=
  {| currentLesson := 0; lastSentAt := None; joinedAt := clock env (length (trace w)) |}.

(** The message of an event that is a [bot.sendMessage] call that went
    through, with the chat it went to. *)
Definition sentMessage (ev : event) : option (chatId * message) :=
  match ev with
  | Called (sendMessage chat text) None => Some (chat, text)
  | _ => None
  end.

(** The messages delivered by a run with events [new] (newest first), in
    the order they were sent. *)
Definition sentMessages (new : list event) : list (chatId * message) :=
  omap sentMessage (rev new).

(** [Number.MAX_SAFE_INTEGER]: up to it a JavaScript number holds an
    integer exactly, [String] prints it in plain decimal digits and
    [Number.parseInt] reads the digits back without rounding. *)
Definition MAX_SAFE_INTEGER : Z := 9007199254740991.

(** The world after [n] firings of the scheduler's callback. *)
Fixpoint afterRuns (env : Env) (cfg : Config) (n : nat) (w : World) : World :=
  match n with
  | O => w
  | S n' => afterRuns env cfg n' (dailyJob env cfg w).2
  end.

End BotNotions.

Module MoreScenarios.
Import Bot Scenario.

(** A subscriber who has had all three lessons. *)
Definition atThree : UserState :=
  {| currentLesson := 3; lastSentAt := Some "T9"; joinedAt := "T0" |}.

Definition finished : World := initialWorld (<["42" := atThree]> ∅) true.

End MoreScenarios.
(** ** The chunker: lemmas *)

Module ChunkerFacts.
Import Chunker.

Lemma scanLast_range c text : forall pos fromIndex found,
  let r := scanLast c text pos fromIndex found in
  r = found \/
  (Z.of_nat pos <= r <= Z.of_nat fromIndex /\ r < Z.of_nat (pos + length text)).
Proof.
  induction text as [|x rest IH]; intros pos fromIndex found; simpl; [by left|].
  destruct (Nat.ltb_spec fromIndex pos) as [Hlt|Hge]; [by left|].
  specialize (IH (S pos) fromIndex (if (x =? c)%N then Z.of_nat pos else found)).
  simpl in IH. destruct IH as [-> | [Hr Hlen]].
  - destruct (x =? c)%N; [right; lia | by left].
  - right. lia.
Qed.

Lemma lastIndexOf_range text c fromIndex :
  lastIndexOf text c fromIndex = -1 \/
  (0 <= lastIndexOf text c fromIndex <= Z.of_nat fromIndex /\
   lastIndexOf text c fromIndex < Z.of_nat (length text)).
Proof.
  unfold lastIndexOf.
  destruct (scanLast_range c text 0 fromIndex (-1)) as [H|H]; [by left | right].
  simpl in H. lia.
Qed.

Lemma allWhiteSpace_app a b : allWhiteSpace a -> allWhiteSpace b -> allWhiteSpace (a ++ b).
Proof. unfold allWhiteSpace. intros. by apply Forall_app. Qed.

Lemma trimStart_split s :
  exists a, s = a ++ trimStart s /\ allWhiteSpace a.
Proof.
  induction s as [|c rest [a [Heq Ha]]]; simpl.
  - exists []. split; [done | constructor].
  - destruct (isWhiteSpace c) eqn:Hc.
    + exists (c :: a). split; [simpl; congruence | by constructor].
    + exists []. split; [done | constructor].
Qed.

Lemma trimStart_ws s : allWhiteSpace s -> trimStart s = [].
Proof.
  induction 1 as [|c rest Hc _ IH]; simpl; [done|]. by rewrite Hc.
Qed.

Lemma trimStart_nil_ws s : trimStart s = [] -> allWhiteSpace s.
Proof.
  intros H. destruct (trimStart_split s) as [a [Heq Ha]].
  rewrite H, app_nil_r in Heq. by subst.
Qed.

Lemma allWhiteSpace_rev s : allWhiteSpace s -> allWhiteSpace (rev s).
Proof. unfold allWhiteSpace. apply List.Forall_rev. Qed.

Lemma trimEnd_split s :
  exists b, s = trimEnd s ++ b /\ allWhiteSpace b.
Proof.
  destruct (trimStart_split (rev s)) as [a [Heq Ha]].
  exists (rev a). split; [|by apply allWhiteSpace_rev].
  unfold trimEnd. rewrite <- rev_app_distr, <- Heq. by rewrite rev_involutive.
Qed.

(** [trim] only removes white space, at both ends. *)
Lemma trim_split s :
  exists a b, s = a ++ trim s ++ b /\ allWhiteSpace a /\ allWhiteSpace b.
Proof.
  destruct (trimStart_split s) as [a [Ha Hwa]].
  destruct (trimEnd_split (trimStart s)) as [b [Hb Hwb]].
  exists a, b. unfold trim. by rewrite <- Hb.
Qed.

Lemma trim_length s : (length (trim s) <= length s)%nat.
Proof.
  destruct (trim_split s) as (a & b & Heq & _).
  rewrite Heq at 2. rewrite !length_app. lia.
Qed.

Lemma trim_ws s : allWhiteSpace s -> trim s = [].
Proof. intros H. unfold trim, trimEnd. by rewrite (trimStart_ws s H). Qed.

Lemma trim_nil_ws s : trim s = [] -> allWhiteSpace s.
Proof.
  intros H. destruct (trim_split s) as (a & b & Heq & Ha & Hb).
  rewrite H in Heq. simpl in Heq. subst s. by apply allWhiteSpace_app.
Qed.

Lemma truthyString_false s : truthyString s = false -> s = [].
Proof. by destruct s. Qed.

Lemma truthyString_true s : truthyString s = true <-> s <> [].
Proof. by destruct s. Qed.

Lemma slice_length text from to : (length (slice text from to) <= to - from)%nat.
Proof. unfold slice. rewrite length_take. lia. Qed.

Lemma slice_to_end text start : slice text start (length text) = drop start text.
Proof. unfold slice. apply take_ge. rewrite length_drop. lia. Qed.

Lemma slice_ws text from to : allWhiteSpace text -> allWhiteSpace (slice text from to).
Proof. unfold allWhiteSpace, slice. intros H. by apply Forall_take, Forall_drop. Qed.

Lemma drop_slice text start split :
  (start <= split)%nat -> drop start text = slice text start split ++ drop split text.
Proof.
  intros H. unfold slice.
  replace (drop split text) with (drop (split - start) (drop start text)).
  - by rewrite take_drop.
  - rewrite drop_drop. f_equal. lia.
Qed.

Lemma weave_cons g gaps c chunks :
  weave (g :: gaps) (c :: chunks) = g ++ c ++ weave gaps chunks.
Proof. done. Qed.

(** A gap in front of a woven text merges with its first gap. *)
Lemma weave_prepend b g gaps chunks :
  weave ((b ++ g) :: gaps) chunks = b ++ weave (g :: gaps) chunks.
Proof. destruct chunks; simpl; by rewrite <- ?app_assoc. Qed.

(** Empty chunks can be dropped from a woven text: their two gaps merge. *)
Lemma weave_filter chunks : forall gaps,
  length gaps = S (length chunks) ->
  Forall allWhiteSpace gaps ->
  exists gaps',
    length gaps' = S (length (filter (fun c => truthyString c = true) chunks)) /\
    Forall allWhiteSpace gaps' /\
    weave gaps' (filter (fun c => truthyString c = true) chunks) = weave gaps chunks.
Proof.
  induction chunks as [|c chunks IH]; intros gaps Hlen Hws.
  - exists gaps. by rewrite filter_nil.
  - destruct gaps as [|g gaps]; [done|].
    apply Forall_cons in Hws as [Hg Hws].
    destruct (IH gaps) as (gaps' & Hlen' & Hws' & Heq); [simpl in Hlen; lia | done |].
    destruct c as [|x c].
    + rewrite filter_cons_False by (simpl; congruence).
      destruct gaps' as [|g' gaps']; [done|].
      apply Forall_cons in Hws' as [Hg' Hws'].
      exists ((g ++ g') :: gaps'). split; [done|]. split.
      * constructor; [by apply allWhiteSpace_app | done].
      * rewrite weave_prepend. cbn [weave app]. f_equal. exact Heq.
    + rewrite filter_cons_True by done.
      exists (g :: gaps'). split; [simpl; lia|]. split; [by constructor|].
      cbn [weave]. do 2 f_equal. exact Heq.
Qed.

(** One unfolding of the loop, whatever the fuel looks like. *)
Lemma formatLoop_done limit fuel text start chunks :
  (length text <= start)%nat -> formatLoop limit fuel text start chunks = Some chunks.
Proof.
  intros H. destruct fuel; simpl;
    by destruct (Nat.ltb_spec start (length text)); [lia|].
Qed.

Lemma splitPoint_range limit text start :
  (0 < limit)%nat ->
  Z.of_nat start < splitPoint limit text start <= Z.of_nat (start + limit).
Proof.
  intros Hl. unfold splitPoint.
  pose proof (lastIndexOf_range text LF (start + limit)) as HLF.
  pose proof (lastIndexOf_range text SP (start + limit)) as HSP.
  repeat match goal with |- context [?a <=? ?b] => destruct (Z.leb_spec a b) end; lia.
Qed.

Lemma formatLoop_step limit fuel text start chunks :
  (start < length text)%nat ->
  formatLoop limit (S fuel) text start chunks =
    if (length text - start <=? limit)%nat
    then Some (chunks ++ [trim (slice text start (length text))])
    else
      let split := Z.to_nat (splitPoint limit text start) in
      let segment := trim (slice text start split) in
      formatLoop limit fuel text split
        (if truthyString segment then chunks ++ [segment] else chunks).
Proof.
  intros H. simpl. by destruct (Nat.ltb_spec start (length text)); [|lia].
Qed.


(** What the loop guarantees of each chunk it pushes. *)
Definition chunkOk (limit : nat) (text chunk : jsstring) : Prop :=
  (length chunk <= limit)%nat /\ exists from to, chunk = trim (slice text from to).

Section Loop.
Variable limit : nat.
Hypothesis limit_pos : (0 < limit)%nat.
Variable text : jsstring.

(** Every iteration consumes at least one code unit, so the loop ends
    within [length text - start + 1] iterations. *)
Lemma formatLoop_total : forall fuel start chunks,
  (length text - start < fuel)%nat ->
  is_Some (formatLoop limit fuel text start chunks).
Proof.
  induction fuel as [|fuel IH]; intros start chunks Hfuel; [lia|].
  destruct (Nat.lt_ge_cases start (length text)) as [Hlt|Hge].
  - rewrite formatLoop_step by done.
    destruct (Nat.leb_spec (length text - start) limit); [by eexists|].
    cbv zeta. apply IH.
    pose proof (splitPoint_range limit text start limit_pos). lia.
  - rewrite formatLoop_done by done. by eexists.
Qed.

(** The loop invariant: what was pushed stays, every new chunk is a
    trimmed slice within the limit, and the part of the text from [start]
    on is the new chunks woven with white space. *)
Lemma formatLoop_spec : forall fuel start chunks res,
  formatLoop limit fuel text start chunks = Some res ->
  exists more gaps,
    res = chunks ++ more /\
    Forall (chunkOk limit text) more /\
    length gaps = S (length more) /\
    Forall allWhiteSpace gaps /\
    drop start text = weave gaps more.
Proof.
  induction fuel as [|fuel IH]; intros start chunks res Hrun.
  - destruct (Nat.lt_ge_cases start (length text)) as [Hlt|Hge].
    + simpl in Hrun. by destruct (Nat.ltb_spec start (length text)); [|lia].
    + rewrite formatLoop_done in Hrun by done. injection Hrun as <-.
      exists [], [[]]. rewrite app_nil_r, drop_ge by done.
      repeat split; by repeat constructor.
  - destruct (Nat.lt_ge_cases start (length text)) as [Hlt|Hge].
    2:{ rewrite formatLoop_done in Hrun by done. injection Hrun as <-.
        exists [], [[]]. rewrite app_nil_r, drop_ge by done.
        repeat split; by repeat constructor. }
    rewrite formatLoop_step in Hrun by done.
    destruct (Nat.leb_spec (length text - start) limit) as [Hfit|Hlong].
    + injection Hrun as <-.
      destruct (trim_split (slice text start (length text))) as (a & b & Heq & Ha & Hb).
      exists [trim (slice text start (length text))], [a; b].
      split; [done|]. split.
      { constructor; [|constructor]. split; [|by eauto].
        etrans; [apply trim_length|]. etrans; [apply slice_length|]. done. }
      split; [done|]. split; [by repeat constructor|].
      rewrite <- slice_to_end. simpl. done.
    + cbv zeta in Hrun.
      pose proof (splitPoint_range limit text start limit_pos) as Hsplit.
      set (split := Z.to_nat (splitPoint limit text start)) in *.
      assert (start < split <= start + limit)%nat as Hrange by lia.
      destruct (trim_split (slice text start split)) as (a & b & Heq & Ha & Hb).
      assert (chunkOk limit text (trim (slice text start split))) as Hok.
      { split; [|by eauto].
        etrans; [apply trim_length|]. etrans; [apply slice_length|]. lia. }
      apply IH in Hrun as (more & gaps & -> & Hmore & Hlen & Hgaps & Hdrop).
      destruct gaps as [|g gaps]; [done|].
      apply Forall_cons in Hgaps as [Hg Hgaps].
      rewrite (drop_slice text start split), Hdrop by lia.
      destruct (truthyString (trim (slice text start split))) eqn:Htruthy.
      * exists (trim (slice text start split) :: more), (a :: (b ++ g) :: gaps).
        split; [by rewrite <- app_assoc|]. split; [by constructor|].
        split; [simpl in *; lia|].
        split; [constructor; [done|constructor; [by apply allWhiteSpace_app|done]]|].
        rewrite weave_cons, weave_prepend. rewrite Heq at 1.
        by rewrite <- !app_assoc.
      * exists more, ((slice text start split ++ g) :: gaps).
        split; [done|]. split; [done|]. split; [done|].
        split; [|by rewrite weave_prepend].
        constructor; [|done]. apply allWhiteSpace_app; [|done].
        by apply trim_nil_ws, truthyString_false.
Qed.

(** [formatChunksAt]: the loop run with [length text + 1] units of fuel
    returns, and its truthy chunks are the result. *)
Lemma formatChunksAt_spec :
  exists chunks gaps,
    formatChunksAt limit text = Some chunks /\
    Forall (fun c => c <> [] /\ chunkOk limit text c) chunks /\
    length gaps = S (length chunks) /\
    Forall allWhiteSpace gaps /\
    text = weave gaps chunks.
Proof.
  unfold formatChunksAt.
  destruct (formatLoop_total (S (length text)) 0 []) as [res Hres]; [lia|].
  rewrite Hres. cbn [fmap option_fmap option_map].
  apply formatLoop_spec in Hres as (more & gaps & -> & Hmore & Hlen & Hgaps & Hdrop).
  destruct (weave_filter more gaps Hlen Hgaps) as (gaps' & Hlen' & Hgaps' & Hweave).
  eexists _, gaps'. split; [done|].
  split; [|split; [done|split; [done|]]].
  - apply Forall_forall. intros c Hc.
    apply list_elem_of_filter in Hc as [Htruthy Hc].
    split; [by apply truthyString_true|].
    rewrite Forall_forall in Hmore. by apply Hmore.
  - rewrite drop_0 in Hdrop. rewrite Hdrop. symmetry. exact Hweave.
Qed.
End Loop.

Lemma MAX_MESSAGE_LENGTH_pos : (0 < MAX_MESSAGE_LENGTH)%nat.
Proof. unfold MAX_MESSAGE_LENGTH. lia. Qed.

(** [formatChunks] is the loop's result: the fuel never runs out. *)
Lemma formatChunks_eq text :
  formatChunksAt MAX_MESSAGE_LENGTH text = Some (formatChunks text).
Proof.
  unfold formatChunks.
  destruct (formatChunksAt_spec _ MAX_MESSAGE_LENGTH_pos text) as (c & g & -> & _).
  done.
Qed.

(** C5: for every text, [formatChunks] returns non-empty chunks of at most
    4096 code units each; the text is these chunks in order with runs of
    white space before, between and after them (the white space that [trim]
    removed at the cuts); a text of white space only gives no chunk.  The
    loop ends for every text ([formatChunksAt] returns [Some]). *)
Theorem formatChunks_contract (text : jsstring) :
  formatChunksAt MAX_MESSAGE_LENGTH text = Some (formatChunks text) /\
  Forall (fun c => c <> [] /\ (length c <= 4096)%nat) (formatChunks text) /\
  (exists gaps,
     length gaps = S (length (formatChunks text)) /\
     Forall allWhiteSpace gaps /\
     text = weave gaps (formatChunks text)) /\
  (allWhiteSpace text -> formatChunks text = []).
Proof.
  split; [apply formatChunks_eq|].
  unfold formatChunks.
  destruct (formatChunksAt_spec _ MAX_MESSAGE_LENGTH_pos text)
    as (chunks & gaps & -> & Hchunks & Hlen & Hgaps & Hweave).
  cbn [default]. split; [|split].
  - eapply Forall_impl; [exact Hchunks|]. by intros c [Hne [Hlim _]].
  - by exists gaps.
  - intros Hws. destruct chunks as [|c chunks]; [done|].
    apply Forall_cons in Hchunks as [[Hne [_ (from & to & Hc)]] _].
    exfalso. apply Hne. rewrite Hc. by apply trim_ws, slice_ws.
Qed.

End ChunkerFacts.

(** ** The bot: lemmas *)

Module BotFacts.
Import Chunker Bot.

(** *** Properties of the state that a program keeps *)

Definition preserves {A} (I : World -> Prop) (m : M A) : Prop :=
  forall w, I w -> I (m w).2.

(** A property that only reads a part of the world that sending messages
    and writing to the console leave alone. *)
Definition ignoresTrace (I : World -> Prop) : Prop :=
  forall w tr, I w ->
    I {| users := users w; progressFile := progressFile w; tmpFile := tmpFile w; trace := tr |}.

Definition ignoresFiles (I : World -> Prop) : Prop :=
  forall w p t tr, I w ->
    I {| users := users w; progressFile := p; tmpFile := t; trace := tr |}.

Definition isFileWrite (c : call) : bool :=
  match c with writeFile _ _ | rename _ _ => true | _ => false end.

Lemma ignoresFiles_trace I : ignoresFiles I -> ignoresTrace I.
Proof. intros H w tr Hw. by apply H. Qed.

Section Preserves.
Context (I : World -> Prop).

Lemma preserves_ret {A} (a : A) : preserves I (ret a).
Proof. by intros w. Qed.

Lemma preserves_gets {A} (f : World -> A) : preserves I (gets f).
Proof. by intros w. Qed.

Lemma preserves_bind {A B} (m : M A) (k : A -> M B) :
  preserves I m -> (forall a, preserves I (k a)) -> preserves I (bind m k).
Proof.
  intros Hm Hk w Hw. unfold bind. specialize (Hm w Hw).
  destruct (m w) as [[a|e] w1]; simpl in *; [by apply Hk | done].
Qed.

Lemma preserves_tryCatch {A} (body : M A) (handler : jsError -> M A) :
  preserves I body -> (forall e, preserves I (handler e)) ->
  preserves I (tryCatch body handler).
Proof.
  intros Hb Hh w Hw. unfold tryCatch. specialize (Hb w Hw).
  destruct (body w) as [[a|e] w1]; simpl in *; [done | by apply Hh].
Qed.

Lemma preserves_forEach {A} (items : list A) (body : A -> M unit) :
  (forall x, preserves I (body x)) -> preserves I (forEach items body).
Proof.
  intros Hbody. induction items as [|x rest IH]; simpl.
  - by intros w.
  - apply preserves_bind; [apply Hbody | by intros _].
Qed.
End Preserves.

Section PreservesCalls.
Context (env : Env) (I : World -> Prop).

Lemma preserves_record (ev : event) : ignoresTrace I -> preserves I (record ev).
Proof. intros H w Hw. by apply H. Qed.

Lemma preserves_now : preserves I (now env).
Proof. by intros w. Qed.

Lemma preserves_perform_send (c : call) :
  ignoresTrace I -> isFileWrite c = false -> preserves I (perform env c).
Proof.
  intros H Hc w Hw. unfold perform.
  destruct (failure env (length (trace w)) c); simpl; [by apply H|].
  destruct c; try done; by apply H.
Qed.

Lemma preserves_perform (c : call) : ignoresFiles I -> preserves I (perform env c).
Proof.
  intros H w Hw. unfold perform.
  destruct (failure env (length (trace w)) c); simpl; [by apply H|].
  destruct c; simpl; by apply H.
Qed.
End PreservesCalls.

(** [sendLessonAssets] keeps every property that sending and logging keep:
    it never writes to the store or to the files. *)
Lemma sendLessonAssets_preserves env cfg (I : World -> Prop) chat lessonIndex :
  ignoresTrace I -> preserves I (sendLessonAssets env cfg chat lessonIndex).
Proof.
  intros HI. unfold sendLessonAssets.
  assert (forall c, isFileWrite c = false -> preserves I (perform env c)) as Hsend
    by (intros; by apply preserves_perform_send).
  assert (forall line, preserves I (consoleError line)) as Hlog
    by (intros; by apply preserves_record).
  assert (forall (e : jsError) line,
            preserves I (if negb (isENOENT e) then consoleError line else ret tt)) as Hcatch.
  { intros e line. destruct (negb (isENOENT e)); [apply Hlog | apply preserves_ret]. }
  destruct (lessonAt cfg lessonIndex) as [[|c text]|]; try by apply Hsend.
  repeat first
    [ apply preserves_bind; [|intros _]
    | apply preserves_tryCatch; [|intros ?]
    | apply preserves_forEach; intros ?
    | by apply Hsend
    | apply Hcatch
    | apply preserves_ret ].
  destruct (videoAt cfg lessonIndex); [by apply Hsend | apply preserves_ret].
Qed.

(** The store and the two files, as one value. *)
Definition store (w : World) :=
  (users w, progressFile w, tmpFile w).

Lemma store_ignoresTrace s : ignoresTrace (fun w => store w = s).
Proof. intros w tr Hw. exact Hw. Qed.

Lemma sendLessonAssets_store env cfg chat lessonIndex w :
  store (sendLessonAssets env cfg chat lessonIndex w).2 = store w.
Proof.
  apply (sendLessonAssets_preserves env cfg (fun w' => store w' = store w));
    [apply store_ignoresTrace | done].
Qed.

Lemma perform_send_store env c w :
  isFileWrite c = false -> store (perform env c w).2 = store w.
Proof.
  intros Hc.
  apply (preserves_perform_send env (fun w' => store w' = store w));
    [apply store_ignoresTrace | done | done].
Qed.


(** *** What a program adds to the trace *)

Lemma newEvents_app w w' new : trace w' = new ++ trace w -> newEvents w w' = new.
Proof.
  intros H. unfold newEvents. rewrite H, length_app.
  replace (length new + length (trace w) - length (trace w))%nat with (length new) by lia.
  by rewrite take_app_length.
Qed.

(** Every event the program adds satisfies [P]. *)
Definition emits {A} (P : event -> Prop) (m : M A) : Prop :=
  forall w, exists new, trace (m w).2 = new ++ trace w /\ Forall P new.

(** A failed send of a lesson chunk is never swallowed: the program ends
    by throwing that very error. *)
Definition loud {A} (m : M A) : Prop :=
  forall w, exists new,
    trace (m w).2 = new ++ trace w /\
    forall ev chat e, ev ∈ new -> failedChunkSend ev = Some (chat, e) -> (m w).1 = Throw e.

Section Emits.
Context (P : event -> Prop).

Lemma emits_ret {A} (a : A) : emits P (ret a).
Proof. intros w. by exists []. Qed.

Lemma emits_gets {A} (f : World -> A) : emits P (gets f).
Proof. intros w. by exists []. Qed.

Lemma emits_setUsers f : emits P (setUsers f).
Proof. intros w. by exists []. Qed.

Lemma emits_record ev : P ev -> emits P (record ev).
Proof. intros H w. exists [ev]. split; [done | by constructor]. Qed.

Lemma emits_perform env c : (forall f, P (Called c f)) -> emits P (perform env c).
Proof.
  intros H w. unfold perform.
  destruct (failure env (length (trace w)) c) as [e|]; simpl.
  - exists [Called c (Some e)]. split; [done | by constructor].
  - exists [Called c None]. split; [by destruct c | by constructor].
Qed.

Lemma emits_bind {A B} (m : M A) (k : A -> M B) :
  emits P m -> (forall a, emits P (k a)) -> emits P (bind m k).
Proof.
  intros Hm Hk w. unfold bind. destruct (Hm w) as (new1 & Ht1 & HP1).
  destruct (m w) as [[a|e] w1]; simpl in *; [|by exists new1].
  destruct (Hk a w1) as (new2 & Ht2 & HP2).
  exists (new2 ++ new1). rewrite Ht2, Ht1, app_assoc.
  split; [done | by apply Forall_app].
Qed.

Lemma emits_tryCatch {A} (body : M A) (handler : jsError -> M A) :
  emits P body -> (forall e, emits P (handler e)) -> emits P (tryCatch body handler).
Proof.
  intros Hb Hh w. unfold tryCatch. destruct (Hb w) as (new1 & Ht1 & HP1).
  destruct (body w) as [[a|e] w1]; simpl in *; [by exists new1|].
  destruct (Hh e w1) as (new2 & Ht2 & HP2).
  exists (new2 ++ new1). rewrite Ht2, Ht1, app_assoc.
  split; [done | by apply Forall_app].
Qed.

Lemma emits_forEach {A} (items : list A) (body : A -> M unit) :
  (forall x, emits P (body x)) -> emits P (forEach items body).
Proof.
  intros Hbody. induction items as [|x rest IH]; simpl.
  - apply emits_ret.
  - apply emits_bind; [apply Hbody | by intros _].
Qed.
End Emits.

Lemma emits_impl {A} (P Q : event -> Prop) (m : M A) :
  (forall ev, P ev -> Q ev) -> emits P m -> emits Q m.
Proof.
  intros HPQ Hm w. destruct (Hm w) as (new & Ht & HP).
  exists new. split; [done | by eapply Forall_impl].
Qed.

Definition quiet (ev : event) : Prop := failedChunkSend ev = None.

Lemma loud_emits {A} (m : M A) : emits quiet m -> loud m.
Proof.
  intros Hm w. destruct (Hm w) as (new & Ht & Hq). exists new. split; [done|].
  intros ev chat e Hin Hev. rewrite Forall_forall in Hq.
  specialize (Hq ev Hin). unfold quiet in Hq. congruence.
Qed.

Lemma loud_perform env c : loud (perform env c).
Proof.
  intros w. unfold perform.
  destruct (failure env (length (trace w)) c) as [e|]; simpl.
  - exists [Called c (Some e)]. split; [done|].
    intros ev chat e' Hin Hev. apply list_elem_of_singleton in Hin as ->.
    destruct c as [? []| | | | |]; simpl in Hev; congruence.
  - exists [Called c None]. split; [by destruct c|].
    intros ev chat e' Hin Hev. apply list_elem_of_singleton in Hin as ->.
    destruct c as [? []| | | | |]; simpl in Hev; congruence.
Qed.

Lemma loud_bind {A B} (m : M A) (k : A -> M B) :
  loud m -> (forall a, loud (k a)) -> loud (bind m k).
Proof.
  intros Hm Hk w. unfold bind. destruct (Hm w) as (new1 & Ht1 & H1).
  destruct (m w) as [[a|e] w1]; simpl in *; [|exists new1; split; [done|];
     intros ev chat e0 Hin Hev; specialize (H1 ev chat e0 Hin Hev); congruence].
  destruct (Hk a w1) as (new2 & Ht2 & H2).
  exists (new2 ++ new1). rewrite Ht2, Ht1, app_assoc. split; [done|].
  intros ev chat e Hin Hev. apply elem_of_app in Hin as [Hin|Hin].
  - by eapply H2.
  - by specialize (H1 ev chat e Hin Hev).
Qed.

Lemma loud_forEach {A} (items : list A) (body : A -> M unit) :
  (forall x, loud (body x)) -> loud (forEach items body).
Proof.
  intros Hbody. induction items as [|x rest IH]; simpl.
  - apply loud_emits, emits_ret.
  - apply loud_bind; [apply Hbody | by intros _].
Qed.

(** An event is addressed to [chat] when it is a call of the Telegram
    client for that chat, or no such call at all. *)
Definition addressedTo (chat : chatId) (ev : event) : Prop :=
  match ev with
  | Called c _ => match addressee c with Some to => to = chat | None => True end
  | _ => True
  end.

Section Assets.
Context (env : Env) (cfg : Config) (chat : chatId) (lessonIndex : Z).

(** The two guarded steps, image and audio, add no failed chunk. *)
Lemma guarded_emits (P : event -> Prop) (c1 c2 : call) (line : jsError -> consoleLine) :
  (forall f, P (Called c1 f)) -> (forall f, P (Called c2 f)) ->
  (forall e, P (ConsoleError (line e))) ->
  emits P (tryCatch (perform env c1 >> perform env c2)
             (fun error => if negb (isENOENT error) then consoleError (line error)
                           else ret tt)).
Proof.
  intros H1 H2 H3. apply emits_tryCatch.
  - apply emits_bind; [by apply emits_perform | intros _; by apply emits_perform].
  - intros e. destruct (negb (isENOENT e)); [by apply emits_record | apply emits_ret].
Qed.

Lemma sendLessonAssets_loud : loud (sendLessonAssets env cfg chat lessonIndex).
Proof.
  unfold sendLessonAssets.
  destruct (lessonAt cfg lessonIndex) as [[|c text]|]; try apply loud_perform.
  apply loud_bind; [by apply loud_emits, guarded_emits|intros _].
  apply loud_bind; [apply loud_forEach; intros ?; apply loud_perform|intros _].
  apply loud_bind; [by apply loud_emits, guarded_emits|intros _].
  destruct (videoAt cfg lessonIndex); [apply loud_perform | apply loud_emits, emits_ret].
Qed.

(** Everything [sendLessonAssets] sends goes to the normalized chat. *)
Lemma sendLessonAssets_addressed :
  emits (addressedTo (normalizeChatId chat)) (sendLessonAssets env cfg chat lessonIndex).
Proof.
  unfold sendLessonAssets.
  destruct (lessonAt cfg lessonIndex) as [[|c text]|]; try by apply emits_perform.
  apply emits_bind; [by apply guarded_emits|intros _].
  apply emits_bind; [apply emits_forEach; intros ?; by apply emits_perform|intros _].
  apply emits_bind; [by apply guarded_emits|intros _].
  destruct (videoAt cfg lessonIndex); [by apply emits_perform | apply emits_ret].
Qed.
End Assets.


(** *** One delivery to one subscriber *)

Lemma bind_ok {A B} (m : M A) (k : A -> M B) w a w1 :
  m w = (Ok a, w1) -> bind m k w = k a w1.
Proof. intros H. unfold bind. by rewrite H. Qed.

Lemma bind_throw {A B} (m : M A) (k : A -> M B) w e w1 :
  m w = (Throw e, w1) -> bind m k w = (Throw e, w1).
Proof. intros H. unfold bind. by rewrite H. Qed.

Lemma tryCatch_ok {A} (body : M A) handler w a w1 :
  body w = (Ok a, w1) -> tryCatch body handler w = (Ok a, w1).
Proof. intros H. unfold tryCatch. by rewrite H. Qed.

Lemma tryCatch_throw {A} (body : M A) handler w e w1 :
  body w = (Throw e, w1) -> tryCatch body handler w = handler e w1.
Proof. intros H. unfold tryCatch. by rewrite H. Qed.

Lemma geb_false a b : a < b -> (a >=? b) = false.
Proof. intros H. rewrite Z.geb_leb. by apply Z.leb_gt. Qed.

Lemma geb_true a b : b <= a -> (a >=? b) = true.
Proof. intros H. rewrite Z.geb_leb. by apply Z.leb_le. Qed.

Lemma ensureUserState_existing env chat w r :
  users w !! String_ chat = Some r ->
  ensureUserState env chat w = (Ok (String_ chat), w).
Proof. intros H. unfold ensureUserState, bind, gets; simpl. by rewrite H. Qed.

Lemma ensureUserState_fresh env chat w :
  users w !! String_ chat = None ->
  ensureUserState env chat w =
    (Ok (String_ chat),
     {| users := <[String_ chat := {| currentLesson := 0; lastSentAt := None;
                                      joinedAt := clock env (length (trace w)) |}]> (users w);
        progressFile := progressFile w; tmpFile := tmpFile w; trace := trace w |}).
Proof. intros H. unfold ensureUserState, bind, gets; simpl. by rewrite H. Qed.

(** Two field updates of an existing record amount to storing the new
    record. *)
Lemma alter_alter_insert (f g : UserState -> UserState) key (m : gmap string UserState) r :
  m !! key = Some r -> alter g key (alter f key m) = <[key := g (f r)]> m.
Proof.
  intros H. apply map_eq. intros k. rewrite !lookup_alter, lookup_insert.
  repeat case_decide; try done. by rewrite H.
Qed.

Lemma alter_insert_one (f : UserState -> UserState) key (m : gmap string UserState) r :
  m !! key = Some r -> alter f key m = <[key := f r]> m.
Proof.
  intros H. apply map_eq. intros k. rewrite lookup_alter, lookup_insert.
  repeat case_decide; try done. subst. by rewrite H.
Qed.

(** What follows a delivery in [sendLessonToUser]: the writes of
    [saveProgress] and, when one of them fails, the line of the handler. *)
Definition bookkeeping (chat : chatId) (lessonIndex : Z) (ev : event) : Prop :=
  match ev with
  | Called c _ => isFileWrite c = true
  | ConsoleError (FailedToDeliver n to _) => n = lessonIndex + 1 /\ to = chat
  | _ => False
  end.

Lemma bookkeeping_quiet chat lessonIndex ev : bookkeeping chat lessonIndex ev -> quiet ev.
Proof. destruct ev as [[] []| | |]; simpl; done. Qed.

Lemma bookkeeping_addressed chat lessonIndex to ev :
  bookkeeping chat lessonIndex ev -> addressedTo to ev.
Proof. destruct ev as [[] ?| | |]; simpl; done. Qed.

Lemma sendLessonToUser_due env cfg chat lessonIndex w r :
  users w !! String_ chat = Some r ->
  lessonIndex < totalLessons cfg ->
  let sent := sendLessonAssets env cfg chat lessonIndex w in
  let out := sendLessonToUser env cfg chat lessonIndex w in
  out.1 = Ok tt /\
  match sent.1 with
  | Throw e =>
      out.2 = (consoleError (FailedToDeliver (lessonIndex + 1) chat e) sent.2).2
  | Ok _ =>
      exists tail,
        trace out.2 = tail ++ trace sent.2 /\
        Forall (bookkeeping chat lessonIndex) tail /\
        users out.2 =
          <[String_ chat := advanced r lessonIndex (clock env (length (trace sent.2)))]>
            (users w)
  end.
Proof.
  intros Hr Hdue sent out. subst sent out. unfold sendLessonToUser.
  erewrite bind_ok by (by eapply ensureUserState_existing).
  rewrite (geb_false _ _ Hdue).
  pose proof (sendLessonAssets_store env cfg chat lessonIndex w) as Hstore.
  destruct (sendLessonAssets env cfg chat lessonIndex w) as [[[]|e] w1] eqn:Hsent.
  - assert (users w1 = users w) as Husers by (unfold store in Hstore; simpl in Hstore; congruence).
    assert (users w1 !! String_ chat = Some r) as Hr1 by congruence.
    replace (Z.min (lessonIndex + 1) (totalLessons cfg)) with (lessonIndex + 1) by lia.
    unfold saveProgress, setCurrentLesson, setLastSentAt, setUsers, now, gets, perform,
      record, consoleError, ret, tryCatch, bind.
    rewrite Hsent. simpl.
    rewrite (alter_alter_insert _ _ _ _ r Hr1), Husers.
    repeat match goal with
           | |- context [failure env ?n ?c] => destruct (failure env n c)
           end; simpl; (split; [done|]).
    + eexists [_; _]. split; [reflexivity|]. split; [|reflexivity].
      by repeat constructor.
    + eexists [_; _; _]. split; [reflexivity|]. split; [|reflexivity].
      by repeat constructor.
    + eexists [_; _]. split; [reflexivity|]. split; [|reflexivity].
      by repeat constructor.
  - erewrite tryCatch_throw by (by erewrite bind_throw). done.
Qed.


Lemma saveProgress_users env cfg w : users (saveProgress env cfg w).2 = users w.
Proof.
  unfold saveProgress, perform, record, gets, bind. simpl.
  repeat match goal with
         | |- context [failure env ?n ?c] => destruct (failure env n c)
         end; done.
Qed.

(** The branch of [sendLessonToUser] for an index past the last lesson. *)
Lemma sendLessonToUser_done env cfg chat lessonIndex w r :
  users w !! String_ chat = Some r ->
  totalLessons cfg <= lessonIndex ->
  let out := sendLessonToUser env cfg chat lessonIndex w in
  users out.2 = users w \/
  users out.2 =
    <[String_ chat := {| currentLesson := totalLessons cfg; lastSentAt := lastSentAt r;
                         joinedAt := joinedAt r |}]> (users w).
Proof.
  intros Hr Hdone. unfold sendLessonToUser.
  erewrite bind_ok by (by eapply ensureUserState_existing).
  rewrite (geb_true _ _ Hdone).
  unfold saveProgress, setCurrentLesson, setUsers, gets, perform, record, ret, bind.
  simpl.
  repeat match goal with
         | |- context [failure env ?n ?c] => destruct (failure env n c)
         end; simpl; rewrite ?(alter_insert_one _ _ _ r Hr); auto.
Qed.

(** The same branch, by what becomes of the message that all lessons are
    done. *)
Lemma sendLessonToUser_past env cfg chat lessonIndex w r :
  users w !! String_ chat = Some r ->
  totalLessons cfg <= lessonIndex ->
  users (sendLessonToUser env cfg chat lessonIndex w).2 =
    match failure env (length (trace w)) (sendMessage (normalizeChatId chat) AllLessonsDone) with
    | None =>
        <[String_ chat := {| currentLesson := totalLessons cfg; lastSentAt := lastSentAt r;
                             joinedAt := joinedAt r |}]> (users w)
    | Some _ => users w
    end.
Proof.
  intros Hr Hdone. unfold sendLessonToUser.
  erewrite bind_ok by (by eapply ensureUserState_existing).
  rewrite (geb_true _ _ Hdone).
  unfold saveProgress, setCurrentLesson, setUsers, gets, perform, record, ret, bind.
  simpl.
  repeat match goal with
         | |- context [failure env ?n ?c] => destruct (failure env n c)
         end; simpl; rewrite ?(alter_insert_one _ _ _ r Hr); auto.
Qed.

(** What [sendLessonToUser] does to the records: the one of the chat is
    kept, or gets [currentLesson = min(lessonIndex + 1, total)]; the others
    are left alone. *)
Lemma sendLessonToUser_record env cfg chat lessonIndex w r :
  users w !! String_ chat = Some r ->
  let out := sendLessonToUser env cfg chat lessonIndex w in
  (forall k, k <> String_ chat -> users out.2 !! k = users w !! k) /\
  exists r',
    users out.2 !! String_ chat = Some r' /\
    joinedAt r' = joinedAt r /\
    (r' = r \/ currentLesson r' = Z.min (lessonIndex + 1) (totalLessons cfg)).
Proof.
  intros Hr out. subst out.
  destruct (Z.lt_ge_cases lessonIndex (totalLessons cfg)) as [Hdue|Hdone].
  - destruct (sendLessonToUser_due env cfg chat lessonIndex w r Hr Hdue) as [_ Hout].
    pose proof (sendLessonAssets_store env cfg chat lessonIndex w) as Hstore.
    destruct (sendLessonAssets env cfg chat lessonIndex w) as [[[]|e] w1]; simpl in *.
    + destruct Hout as (tail & _ & _ & ->). split.
      * intros k Hk. by rewrite lookup_insert_ne.
      * eexists. rewrite lookup_insert_eq. split; [done|]. split; [done|].
        right. simpl. lia.
    + rewrite Hout. simpl.
      assert (users w1 = users w) as -> by (unfold store in Hstore; congruence).
      split; [done|]. exists r. auto.
  - destruct (sendLessonToUser_done env cfg chat lessonIndex w r Hr Hdone) as [->| ->].
    + split; [done|]. exists r. auto.
    + split.
      * intros k Hk. by rewrite lookup_insert_ne.
      * eexists. rewrite lookup_insert_eq. split; [done|]. split; [done|].
        right. simpl. lia.
Qed.

Lemma progressInvariant_ignoresFiles cfg : ignoresFiles (progressInvariant cfg).
Proof. intros w p t tr H. exact H. Qed.

Lemma ensureUserState_invariant env cfg chat :
  preserves (progressInvariant cfg) (ensureUserState env chat).
Proof.
  intros w Hinv. destruct (users w !! String_ chat) as [r|] eqn:Hr.
  - by erewrite ensureUserState_existing.
  - rewrite ensureUserState_fresh by done. simpl.
    intros k state. simpl. rewrite lookup_insert. case_decide.
    + intros [= <-]. simpl. unfold totalLessons. lia.
    + apply Hinv.
Qed.

Lemma ensureUserState_registers env chat w :
  is_Some (users (ensureUserState env chat w).2 !! String_ chat).
Proof.
  destruct (users w !! String_ chat) as [r|] eqn:Hr.
  - erewrite ensureUserState_existing by done. by eexists.
  - rewrite ensureUserState_fresh by done. simpl. rewrite lookup_insert_eq. by eexists.
Qed.

(** With an index that is not negative, [sendLessonToUser] keeps the
    invariant. *)
Lemma sendLessonToUser_invariant env cfg chat lessonIndex :
  0 <= lessonIndex ->
  preserves (progressInvariant cfg) (sendLessonToUser env cfg chat lessonIndex).
Proof.
  intros Hidx w Hinv.
  pose proof (ensureUserState_invariant env cfg chat w Hinv) as Hinv0.
  destruct (ensureUserState_registers env chat w) as [r Hr].
  assert (sendLessonToUser env cfg chat lessonIndex w =
          sendLessonToUser env cfg chat lessonIndex (ensureUserState env chat w).2) as ->.
  { unfold sendLessonToUser at 2.
    erewrite bind_ok by (by eapply ensureUserState_existing).
    unfold sendLessonToUser, bind.
    destruct (users w !! String_ chat) as [r0|] eqn:Hr0.
    - by erewrite ensureUserState_existing.
    - by rewrite ensureUserState_fresh. }
  destruct (sendLessonToUser_record env cfg chat lessonIndex _ r Hr)
    as (Hother & r' & Hr' & _ & Hcases).
  intros k state Hk. destruct (decide (k = String_ chat)) as [->|Hne].
  - rewrite Hr' in Hk. injection Hk as <-. destruct Hcases as [->|Hcur].
    + by eapply Hinv0.
    + rewrite Hcur. unfold totalLessons. lia.
  - rewrite Hother in Hk by done. by eapply Hinv0.
Qed.

(** *** The daily job *)

Lemma processed_mono k st (new new' : list event) after :
  (forall ev, ev ∈ new -> ev ∈ new') ->
  processed k st new after -> processed k st new' after.
Proof.
  intros Hsub [H|[H [e He]]]; [by left | right]. split; [done|].
  exists e. by apply Hsub.
Qed.

Lemma app_self_nil {A} (new l : list A) : l = new ++ l -> new = [].
Proof.
  intros H. apply (f_equal length) in H. rewrite length_app in H.
  destruct new; [done | simpl in H; lia].
Qed.

Section Daily.
Context (env : Env) (cfg : Config).

(** What a failed chunk among the events [new] of an entry's turn tells
    about the entry [k] with record [st]. *)
Definition chunkFailureOf (k : string) (st : UserState) (new : list event)
    (after : option UserState) : Prop :=
  forall ev chat e, ev ∈ new -> failedChunkSend ev = Some (chat, e) ->
    chat = normalizeChatId (ChatString k) /\
    after = Some st /\
    ConsoleError (FailedToDeliver (currentLesson st + 1) (ChatString k) e) ∈ new.

Lemma deliverEntry_absent k w :
  users w !! k = None -> deliverEntry env cfg k w = (Ok tt, w).
Proof. intros H. unfold deliverEntry, bind, gets. simpl. by rewrite H. Qed.

Lemma deliverEntry_notDue k w st :
  users w !! k = Some st -> (currentLesson st >=? totalLessons cfg) = true ->
  deliverEntry env cfg k w = (Ok tt, w).
Proof. intros H Hdone. unfold deliverEntry, bind, gets. simpl. by rewrite H, Hdone. Qed.

Lemma deliverEntry_run k w st :
  users w !! k = Some st -> (currentLesson st >=? totalLessons cfg) = false ->
  deliverEntry env cfg k w =
    (sendLessonToUser env cfg (ChatString k) (currentLesson st) >> sleep 1000) w.
Proof. intros H Hdue. unfold deliverEntry, bind, gets. simpl. by rewrite H, Hdue. Qed.

Lemma deliverEntry_spec k w :
  let out := deliverEntry env cfg k w in
  out.1 = Ok tt /\
  exists new,
    trace out.2 = new ++ trace w /\
    (forall k', k' <> k -> users out.2 !! k' = users w !! k') /\
    match users w !! k with
    | None => out.2 = w
    | Some st =>
        if currentLesson st >=? totalLessons cfg then out.2 = w
        else processed k st new (users out.2 !! k) /\
             chunkFailureOf k st new (users out.2 !! k)
    end.
Proof.
  intros out. subst out.
  destruct (users w !! k) as [st|] eqn:Hst;
    [|rewrite deliverEntry_absent by done; by split; [|exists []]].
  destruct (Z.geb_spec (currentLesson st) (totalLessons cfg)) as [Hge|Hlt];
    [rewrite (deliverEntry_notDue k w st) by (by try apply geb_true; try lia);
     by split; [|exists []]|].
  rewrite (deliverEntry_run k w st) by (by try apply geb_false).
  destruct (sendLessonToUser_due env cfg (ChatString k) (currentLesson st) w st Hst Hlt)
    as [Hok Hout].
  destruct (sendLessonAssets_loud env cfg (ChatString k) (currentLesson st) w)
    as (sent & Hsent & Hloud).
  destruct (sendLessonAssets_addressed env cfg (ChatString k) (currentLesson st) w)
    as (sent' & Hsent' & Haddr).
  assert (sent' = sent) as -> by (apply (app_inv_tail (trace w)); congruence).
  pose proof (sendLessonAssets_store env cfg (ChatString k) (currentLesson st) w) as Hstore.
  unfold bind, sleep, record.
  destruct (sendLessonToUser env cfg (ChatString k) (currentLesson st) w)
    as [[[]|e0] w2]; simpl in *; [|done].
  split; [done|].
  destruct (sendLessonAssets env cfg (ChatString k) (currentLesson st) w)
    as [[[]|e] w1]; simpl in *.
  - destruct Hout as (tail & Htrace & Htail & Husers).
    exists (Slept 1000 :: tail ++ sent). rewrite Htrace, Hsent, Husers.
    split; [simpl; by rewrite app_assoc|]. split.
    { intros k' Hne. by rewrite lookup_insert_ne. }
    rewrite lookup_insert_eq. split; [left; by eexists|].
    intros ev chat e Hin Hev. exfalso.
    apply elem_of_cons in Hin as [->|Hin]; [done|].
    apply elem_of_app in Hin as [Hin|Hin].
    + rewrite Forall_forall in Htail.
      pose proof (bookkeeping_quiet _ _ _ (Htail ev Hin)) as Hq.
      unfold quiet in Hq. congruence.
    + by specialize (Hloud ev chat e Hin Hev).
  - subst w2. simpl.
    assert (users w1 = users w) as Husers by (unfold store in Hstore; congruence).
    exists (Slept 1000 :: ConsoleError (FailedToDeliver (currentLesson st + 1) (ChatString k) e)
              :: sent).
    rewrite Hsent, Husers. split; [done|]. split; [done|].
    rewrite Hst. split.
    { right. split; [done|]. exists e. set_solver. }
    intros ev chat e' Hin Hev.
    apply elem_of_cons in Hin as [->|Hin]; [done|].
    apply elem_of_cons in Hin as [->|Hin]; [done|].
    assert (e' = e) as -> by (specialize (Hloud ev chat e' Hin Hev); congruence).
    split; [|split; [done | set_solver]].
    rewrite Forall_forall in Haddr. specialize (Haddr ev Hin).
    destruct ev as [[? []| | | | |] [?|]| | |]; simpl in *; congruence.
Qed.

(** The loop over a snapshot without repeated keys. *)
Lemma deliverLoop_spec (entries : list (string * UserState)) : forall w,
  NoDup entries.*1 ->
  let out := forEach entries (fun '(chatId, _) => deliverEntry env cfg chatId) w in
  out.1 = Ok tt /\
  exists new,
    trace out.2 = new ++ trace w /\
    (forall k, k ∉ entries.*1 -> users out.2 !! k = users w !! k) /\
    (forall k st, k ∈ entries.*1 -> users w !! k = Some st ->
       if currentLesson st >=? totalLessons cfg then users out.2 !! k = Some st
       else processed k st new (users out.2 !! k)) /\
    (forall ev chat e, ev ∈ new -> failedChunkSend ev = Some (chat, e) ->
       exists k st,
         k ∈ entries.*1 /\ users w !! k = Some st /\
         currentLesson st < totalLessons cfg /\
         chat = normalizeChatId (ChatString k) /\
         users out.2 !! k = Some st /\
         ConsoleError (FailedToDeliver (currentLesson st + 1) (ChatString k) e) ∈ new).
Proof.
  induction entries as [|[k x] rest IH]; intros w Hnodup.
  - simpl. split; [done|]. exists []. repeat split; try done.
    + intros k st Hin. by apply elem_of_nil in Hin.
    + intros ev chat e Hin. by apply elem_of_nil in Hin.
  - rewrite fmap_cons in Hnodup. apply NoDup_cons in Hnodup as [Hk Hnodup].
    cbn [forEach fmap list_fmap fst]. unfold bind.
    destruct (deliverEntry_spec k w) as (Hok1 & new1 & Ht1 & Hother & Hentry).
    destruct (deliverEntry env cfg k w) as [[[]|e1] w1]; simpl in *; [|done].
    destruct (IH w1 Hnodup) as (Hok2 & new2 & Ht2 & Hout & Hin2 & Hfail2).
    split; [done|]. exists (new2 ++ new1).
    rewrite Ht2, Ht1. split; [by rewrite app_assoc|].
    assert (forall ev, ev ∈ new1 -> ev ∈ new2 ++ new1) as Hsub1
      by (intros ev ?; apply elem_of_app; auto).
    assert (forall ev, ev ∈ new2 -> ev ∈ new2 ++ new1) as Hsub2
      by (intros ev ?; apply elem_of_app; auto).
    split; [|split].
    + intros k' Hk'. apply not_elem_of_cons in Hk' as [Hne Hk'].
      rewrite Hout by done. by apply Hother.
    + intros k' st Hk' Hst. apply elem_of_cons in Hk' as [->|Hk'].
      * rewrite Hout by done. rewrite Hst in Hentry.
        destruct (currentLesson st >=? totalLessons cfg); [by subst w1|].
        destruct Hentry as [Hp _]. by apply (processed_mono _ _ new1).
      * assert (k' <> k) as Hne by (intros ->; done).
        specialize (Hin2 k' st Hk'). rewrite Hother in Hin2 by done.
        specialize (Hin2 Hst).
        destruct (currentLesson st >=? totalLessons cfg); [done|].
        by apply (processed_mono _ _ new2).
    + intros ev chat e Hin Hev. apply elem_of_app in Hin as [Hin|Hin].
      * destruct (Hfail2 ev chat e Hin Hev) as (k' & st & Hk' & Hst & Hdue & Hchat & Hafter & Hlog).
        assert (k' <> k) as Hne by (intros ->; done).
        exists k', st. rewrite Hother in Hst by done.
        repeat split; try done; [apply elem_of_cons; by right | by apply Hsub2].
      * destruct (users w !! k) as [st|] eqn:Hst.
        2:{ subst w1. apply app_self_nil in Ht1. subst new1. by apply elem_of_nil in Hin. }
        destruct (Z.geb_spec (currentLesson st) (totalLessons cfg)) as [Hge|Hlt].
        { subst w1. apply app_self_nil in Ht1. subst new1. by apply elem_of_nil in Hin. }
        destruct Hentry as [_ Hfail1].
        destruct (Hfail1 ev chat e Hin Hev) as (Hchat & Hafter & Hlog).
        exists k, st. rewrite Hout by done.
        repeat split; try done; [apply elem_of_cons; by left | by apply Hsub1].
Qed.
End Daily.

End BotFacts.

(** ** Start-up: the properties claimed of it *)

Module StartupClaims.
Import Startup.

Section Paths.
Context (LESSONS_PATH VIDEOS_PATH PROGRESS_PATH : string).

Local Abbreviation startup := (startup LESSONS_PATH VIDEOS_PATH PROGRESS_PATH).
Local Abbreviation othersGoThrough := (othersGoThrough LESSONS_PATH VIDEOS_PATH).

Lemma readJsonFile_readable contents fallback :
  readJsonFile (Readable contents) fallback = JSON_parse contents.
Proof. by destruct contents. Qed.

Lemma readJsonFile_missing e fallback :
  isENOENT e = true -> readJsonFile (Unreadable e) fallback = Ok fallback.
Proof. intros H. unfold readJsonFile, tryCatch; simpl. by rewrite H. Qed.

Lemma checkProgress_object members :
  checkProgress PROGRESS_PATH (JObject members) =
    Ok (if keepsUsers members then members else <["users" := JObject ∅]> members).
Proof.
  unfold checkProgress, keepsUsers. simpl.
  destruct (usersOf members) as [[| [] | n | [|c s] | items | users]|]; simpl; try done.
  by destruct (n =? 0).
Qed.

Lemma checkProgress_other v :
  (forall members, v <> JObject members) ->
  checkProgress PROGRESS_PATH v =
    Throw (Error ("Corrupted progress file at " +:+ PROGRESS_PATH)).
Proof. intros H. destruct v; try done. by destruct (H members). Qed.

(** The part of [startup] after the token check, in terms of the read of
    the progress file. *)
Lemma startup_others i lessons videos warnings :
  othersGoThrough i lessons videos warnings ->
  startup i =
    match bind (readJsonFile (progressFile i) emptyProgress)
               (checkProgress PROGRESS_PATH) with
    | Ok progress =>
        Started {| Startup.lessons := lessons; Startup.videos := videos;
                   progress := progress; warnings := warnings;
                   subscribers := keyCount (usersOf progress) |}
    | Throw e => Crashed e
    end.
Proof.
  intros ((token & Htoken & Hne) & Hlessons & Hvideos & Hmkdir).
  unfold Startup.startup. rewrite Htoken.
  destruct token as [|a token]; [done|].
  rewrite Hlessons. cbn [bind]. rewrite Hvideos. cbn [bind].
  destruct (readJsonFile (progressFile i) emptyProgress) as [v|e]; cbn [bind]; [|done].
  destruct (checkProgress PROGRESS_PATH v); cbn [bind]; [|done].
  by rewrite Hmkdir.
Qed.

Lemma startup_needs_progress i state :
  startup i = Started state ->
  exists v, readJsonFile (progressFile i) emptyProgress = Ok v /\
            checkProgress PROGRESS_PATH v = Ok (progress state).
Proof.
  unfold Startup.startup.
  destruct (TELEGRAM_BOT_TOKEN i) as [[|a token]|]; try done.
  destruct (loadLessons LESSONS_PATH (lessonsFile i)) as [lessons|]; simpl; [|done].
  destruct (loadVideos VIDEOS_PATH (videosFile i) (length lessons)) as [[videos warnings]|];
    simpl; [|done].
  destruct (readJsonFile (progressFile i) emptyProgress) as [v|]; simpl; [|done].
  destruct (checkProgress PROGRESS_PATH v) as [progress|] eqn:Hcheck; simpl; [|done].
  destruct (ensureDirectory (mkdirError i)); simpl; [|done].
  intros [= <-]. exists v. by rewrite Hcheck.
Qed.

(** C6, amended: with a progress file that can be read, the script never
    reaches scheduling when the contents are not JSON or are JSON for
    something else than a plain object, and the error is the
    [SyntaxError] of [JSON.parse] or "Corrupted progress file at <path>"
    when the steps around it go through; but when the contents are a
    plain object whose [users] member is missing, falsy or not of type
    object, the script goes on with [users] set to an empty object and no
    subscriber. *)
Theorem progress_file_checks i contents lessons videos warnings :
  progressFile i = Readable contents ->
  (contents = None ->
     (forall state, startup i <> Started state) /\
     (othersGoThrough i lessons videos warnings -> startup i = Crashed SyntaxError)) /\
  (forall v, contents = Some v -> (forall members, v <> JObject members) ->
     (forall state, startup i <> Started state) /\
     (othersGoThrough i lessons videos warnings ->
      startup i = Crashed (Error ("Corrupted progress file at " +:+ PROGRESS_PATH)))) /\
  (forall members, contents = Some (JObject members) -> keepsUsers members = false ->
     othersGoThrough i lessons videos warnings ->
     startup i =
       Started {| Startup.lessons := lessons; Startup.videos := videos;
                  progress := <["users" := JObject ∅]> members;
                  warnings := warnings; subscribers := 0 |}).
Proof.
  intros Hfile. split; [|split].
  - intros ->. split.
    + intros state Hstarted.
      apply startup_needs_progress in Hstarted as (v & Hread & _).
      by rewrite Hfile in Hread.
    + intros Hothers. rewrite (startup_others _ _ _ _ Hothers), Hfile. done.
  - intros v -> Hv. split.
    + intros state Hstarted.
      apply startup_needs_progress in Hstarted as (v' & Hread & Hcheck).
      rewrite Hfile in Hread. injection Hread as <-.
      by rewrite checkProgress_other in Hcheck.
    + intros Hothers. rewrite (startup_others _ _ _ _ Hothers), Hfile. simpl.
      by rewrite checkProgress_other.
  - intros members -> Hkeeps Hothers.
    rewrite (startup_others _ _ _ _ Hothers), Hfile. simpl.
    rewrite checkProgress_object, Hkeeps.
    unfold usersOf. by rewrite lookup_insert_eq.
Qed.

(** C7, amended: of a lessons array with at least 99 entries the script
    keeps the first 99, so the loaded curriculum has exactly 99 lessons,
    also when 100 or more are supplied. *)
Theorem loadLessons_keeps_99 (data : list json) :
  (99 <= length data)%nat ->
  loadLessons LESSONS_PATH (Readable (Some (JArray data))) = Ok (take 99 data) /\
  length (take 99 data) = 99%nat.
Proof.
  intros Hlen.
  assert (length (take 99 data) = 99%nat) as Htake by (rewrite length_take; lia).
  split; [|done]. unfold loadLessons.
  rewrite readJsonFile_readable. cbn [JSON_parse bind].
  replace (TOTAL_IMAGE_FILES `min` (TOTAL_AUDIO_FILES `min` length data))%nat
    with 99%nat by (unfold TOTAL_IMAGE_FILES, TOTAL_AUDIO_FILES; lia).
  by rewrite Htake.
Qed.

(** C10: when there is no progress file (the read fails with [ENOENT])
    and the steps around the read go through, the script reaches
    scheduling with an empty [users] object and no subscriber. *)
Theorem startup_without_progress_file i e lessons videos warnings :
  progressFile i = Unreadable e ->
  isENOENT e = true ->
  othersGoThrough i lessons videos warnings ->
  startup i =
    Started {| Startup.lessons := lessons; Startup.videos := videos;
               progress := {["users" := JObject ∅]};
               warnings := warnings; subscribers := 0 |}.
Proof.
  intros Hfile Hmissing Hothers.
  rewrite (startup_others _ _ _ _ Hothers), Hfile.
  rewrite readJsonFile_missing by done. simpl.
  unfold emptyProgress. rewrite checkProgress_object.
  unfold keepsUsers, usersOf. by rewrite lookup_singleton_eq.
Qed.
End Paths.

End StartupClaims.

(** ** The bot: what a program delivers *)

Module DeliveryFacts.
Import Chunker Bot BotFacts BotNotions.

Lemma sentMessages_app new2 new1 :
  sentMessages (new2 ++ new1) = sentMessages new1 ++ sentMessages new2.
Proof. unfold sentMessages. by rewrite rev_app_distr, omap_app. Qed.

Lemma sentMessages_none new :
  Forall (fun ev => sentMessage ev = None) new -> sentMessages new = [].
Proof.
  induction 1 as [|ev new Hev _ IH]; [done|].
  change (ev :: new) with ([ev] ++ new). rewrite sentMessages_app, IH.
  unfold sentMessages. simpl. by rewrite Hev.
Qed.

(** A program that delivers the messages [expected], in this order: what
    it has sent is always a prefix of them, it is all of them when the
    program returns normally, and the program does return normally when no
    [sendMessage] is rejected. *)
Definition delivers {A} (env : Env) (expected : list (chatId * message)) (m : M A) : Prop :=
  forall w, exists new,
    trace (m w).2 = new ++ trace w /\
    sentMessages new `prefix_of` expected /\
    (forall a, (m w).1 = Ok a -> sentMessages new = expected) /\
    (sendsNeverFail env -> exists a, (m w).1 = Ok a).

Lemma delivers_ret {A} env (a : A) : delivers env [] (ret a).
Proof.
  intros w. exists []. split; [done|]. split; [done|]. split; [done|].
  intros _. by exists a.
Qed.

Lemma delivers_perform env chat text :
  delivers env [(chat, text)] (perform env (sendMessage chat text)).
Proof.
  intros w. unfold perform.
  destruct (failure env (length (trace w)) (sendMessage chat text)) as [e|] eqn:Hf; simpl.
  - exists [Called (sendMessage chat text) (Some e)].
    split; [done|]. split; [apply prefix_nil|]. split; [done|].
    intros Hsends. by rewrite Hsends in Hf.
  - exists [Called (sendMessage chat text) None].
    split; [done|]. split; [done|]. split; [done|]. intros _. by exists tt.
Qed.

(** A step that sends no message and always returns. *)
Lemma delivers_quiet {A} env (m : M A) :
  emits (fun ev => sentMessage ev = None) m ->
  (forall w, exists a, (m w).1 = Ok a) ->
  delivers env [] m.
Proof.
  intros Hemits Hok w. destruct (Hemits w) as (new & Ht & Hnone).
  exists new. rewrite (sentMessages_none _ Hnone).
  split; [done|]. split; [done|]. split; [done|]. intros _. apply Hok.
Qed.

Lemma delivers_bind {A B} env first rest (m : M A) (k : A -> M B) :
  delivers env first m -> (forall a, delivers env rest (k a)) ->
  delivers env (first ++ rest) (bind m k).
Proof.
  intros Hm Hk w. unfold bind.
  destruct (Hm w) as (new1 & Ht1 & Hprefix1 & Hall1 & Hok1).
  destruct (m w) as [[a|e] w1]; simpl in *.
  - destruct (Hk a w1) as (new2 & Ht2 & Hprefix2 & Hall2 & Hok2).
    exists (new2 ++ new1). rewrite Ht2, Ht1, app_assoc, sentMessages_app.
    rewrite (Hall1 a eq_refl). split; [done|].
    split; [by apply prefix_app|]. split; [|done].
    intros b Hb. by rewrite (Hall2 b Hb).
  - exists new1. split; [done|]. split; [by apply prefix_app_r|]. split; [done|].
    intros Hsends. by destruct (Hok1 Hsends).
Qed.

Lemma delivers_forEach env chat (chunks : list jsstring) :
  delivers env (map (fun chunk => (chat, LessonChunk chunk)) chunks)
    (forEach chunks (fun chunk => perform env (sendMessage chat (LessonChunk chunk)))).
Proof.
  induction chunks as [|c rest IH]; cbn [forEach map]; [apply delivers_ret|].
  apply (delivers_bind env [(chat, LessonChunk c)]); [apply delivers_perform | by intros _].
Qed.

(** The guarded steps, image and audio, always return. *)
Lemma guarded_ok env (c1 c2 : call) (line : jsError -> consoleLine) w :
  (tryCatch (perform env c1 >> perform env c2)
     (fun error => if negb (isENOENT error) then consoleError (line error) else ret tt)
     w).1 = Ok tt.
Proof.
  unfold tryCatch, bind, perform, consoleError, record, ret.
  repeat match goal with
         | |- context [failure env ?n ?c] => destruct (failure env n c)
         | |- context [isENOENT ?x] => destruct (isENOENT x)
         end; simpl; done.
Qed.

Lemma guarded_delivers env (c1 c2 : call) (line : jsError -> consoleLine) :
  (forall f, sentMessage (Called c1 f) = None) ->
  (forall f, sentMessage (Called c2 f) = None) ->
  delivers env []
    (tryCatch (perform env c1 >> perform env c2)
       (fun error => if negb (isENOENT error) then consoleError (line error) else ret tt)).
Proof.
  intros H1 H2. apply delivers_quiet.
  - by apply (guarded_emits env).
  - intros w. exists tt. apply guarded_ok.
Qed.

(** The messages of a lesson with text: its chunks, then the video message
    when the lesson has a video. *)
Lemma sendLessonAssets_delivers env cfg chat lessonIndex text :
  lessonAt cfg lessonIndex = Some text ->
  text <> [] ->
  delivers env
    (map (fun chunk => (normalizeChatId chat, LessonChunk chunk)) (formatChunks text) ++
     match videoAt cfg lessonIndex with
     | Some videoMeta =>
         [(normalizeChatId chat, VideoCaption (videoCaptionLines videoMeta))]
     | None => []
     end)
    (sendLessonAssets env cfg chat lessonIndex).
Proof.
  intros Htext Hne. unfold sendLessonAssets. rewrite Htext.
  destruct text as [|c text]; [done|].
  apply (delivers_bind env []); [by apply (guarded_delivers env) | intros _].
  apply delivers_bind; [apply delivers_forEach | intros _].
  apply (delivers_bind env []); [by apply (guarded_delivers env) | intros _].
  destruct (videoAt cfg lessonIndex); [apply delivers_perform | apply delivers_ret].
Qed.

(** The message of a lesson without text. *)
Lemma sendLessonAssets_notice env cfg chat lessonIndex :
  lessonAt cfg lessonIndex = None \/ lessonAt cfg lessonIndex = Some [] ->
  delivers env [(normalizeChatId chat, LessonUnavailable (lessonIndex + 1))]
    (sendLessonAssets env cfg chat lessonIndex).
Proof.
  intros Hmissing. unfold sendLessonAssets.
  destruct Hmissing as [-> | ->]; apply delivers_perform.
Qed.

(** A program that has recorded [ev] whenever it returns normally. *)
Definition reaches {A} (ev : event) (m : M A) : Prop :=
  forall w, exists new,
    trace (m w).2 = new ++ trace w /\
    (forall a, (m w).1 = Ok a -> ev ∈ new).

Definition anyEvent (ev : event) : Prop := True.

Lemma reaches_first {A B} ev (m : M A) (k : A -> M B) :
  reaches ev m -> (forall a, emits anyEvent (k a)) -> reaches ev (bind m k).
Proof.
  intros Hm Hk w. unfold bind. destruct (Hm w) as (new1 & Ht1 & Hin).
  destruct (m w) as [[a|e] w1]; simpl in *; [|by exists new1].
  destruct (Hk a w1) as (new2 & Ht2 & _).
  exists (new2 ++ new1). rewrite Ht2, Ht1, app_assoc. split; [done|].
  intros b _. apply elem_of_app. right. by apply (Hin a).
Qed.

Lemma reaches_later {A B} ev (m : M A) (k : A -> M B) :
  emits anyEvent m -> (forall a, reaches ev (k a)) -> reaches ev (bind m k).
Proof.
  intros Hm Hk w. unfold bind. destruct (Hm w) as (new1 & Ht1 & _).
  destruct (m w) as [[a|e] w1]; simpl in *; [|by exists new1].
  destruct (Hk a w1) as (new2 & Ht2 & Hin).
  exists (new2 ++ new1). rewrite Ht2, Ht1, app_assoc. split; [done|].
  intros b Hb. apply elem_of_app. left. by apply (Hin b).
Qed.

(** A guarded step whose two calls go through has made the second. *)
Lemma guarded_reaches env (c1 c2 : call) (line : jsError -> consoleLine) :
  (forall k, failure env k c1 = None) ->
  (forall k, failure env k c2 = None) ->
  reaches (Called c2 None)
    (tryCatch (perform env c1 >> perform env c2)
       (fun error => if negb (isENOENT error) then consoleError (line error) else ret tt)).
Proof.
  intros H1 H2 w. exists [Called c2 None; Called c1 None].
  unfold tryCatch, bind, perform. rewrite H1. simpl. rewrite H2. simpl.
  split; [by destruct c1, c2|]. intros _ _. apply list_elem_of_here.
Qed.

Lemma guarded_any env (c1 c2 : call) (line : jsError -> consoleLine) :
  emits anyEvent
    (tryCatch (perform env c1 >> perform env c2)
       (fun error => if negb (isENOENT error) then consoleError (line error) else ret tt)).
Proof. by apply (guarded_emits env). Qed.

Lemma sendLessonAssets_any env cfg chat lessonIndex :
  emits anyEvent (sendLessonAssets env cfg chat lessonIndex).
Proof.
  apply (emits_impl (addressedTo (normalizeChatId chat))); [done|].
  apply sendLessonAssets_addressed.
Qed.

Section Media.
Context (env : Env) (cfg : Config) (chat : chatId) (lessonIndex : Z) (text : jsstring).
Hypothesis Htext : lessonAt cfg lessonIndex = Some text.
Hypothesis Hne : text <> [].

(** The image of a lesson with text is sent when it is there and the
    client takes it. *)
Lemma sendLessonAssets_photo imagePath :
  imagePath =
    pathJoin (IMAGES_DIR cfg) ("devine-name-" +:+ pretty (lessonIndex + 1) +:+ ".jpg") ->
  (forall k, failure env k (access imagePath) = None) ->
  (forall k, failure env k
               (sendPhoto (normalizeChatId chat) imagePath (lessonIndex + 1)) = None) ->
  reaches (Called (sendPhoto (normalizeChatId chat) imagePath (lessonIndex + 1)) None)
    (sendLessonAssets env cfg chat lessonIndex).
Proof.
  intros -> Haccess Hsend. unfold sendLessonAssets. rewrite Htext.
  destruct text as [|c rest]; [done|].
  apply reaches_first; [by apply guarded_reaches | intros _].
  apply emits_bind; [apply emits_forEach; intros ?; by apply emits_perform | intros _].
  apply emits_bind; [apply guarded_any | intros _].
  destruct (videoAt cfg lessonIndex); [by apply emits_perform | apply emits_ret].
Qed.

(** And so is its audio. *)
Lemma sendLessonAssets_audio audioPath :
  audioPath =
    pathJoin (AUDIO_DIR cfg) ("lesson_" +:+ padStart3 (pretty (lessonIndex + 1)) +:+ ".wav") ->
  (forall k, failure env k (access audioPath) = None) ->
  (forall k, failure env k (sendAudio (normalizeChatId chat) audioPath) = None) ->
  reaches (Called (sendAudio (normalizeChatId chat) audioPath) None)
    (sendLessonAssets env cfg chat lessonIndex).
Proof.
  intros -> Haccess Hsend. unfold sendLessonAssets. rewrite Htext.
  destruct text as [|c rest]; [done|].
  apply reaches_later; [apply guarded_any | intros _].
  apply reaches_later;
    [apply emits_forEach; intros ?; by apply emits_perform | intros _].
  apply reaches_first; [by apply guarded_reaches | intros _].
  destruct (videoAt cfg lessonIndex); [by apply emits_perform | apply emits_ret].
Qed.
End Media.

End DeliveryFacts.

(** ** The bot: the properties claimed of it *)

Module BotClaims.
Import Chunker Bot BotFacts BotNotions DeliveryFacts.

Lemma elem_of_keys (m : gmap string UserState) k :
  k ∈ (map_to_list m).*1 <-> is_Some (m !! k).
Proof.
  rewrite list_elem_of_fmap. split.
  - intros ([k' r] & -> & Hin). apply elem_of_map_to_list in Hin. by eexists.
  - intros [r Hr]. exists (k, r). split; [done | by apply elem_of_map_to_list].
Qed.

Lemma deliverDailyLessons_empty env cfg w :
  length (map_to_list (users w)) = 0%nat -> deliverDailyLessons env cfg w = (Ok tt, w).
Proof.
  intros H. unfold deliverDailyLessons, bind, gets. simpl. by rewrite H.
Qed.

Lemma deliverDailyLessons_run env cfg w :
  length (map_to_list (users w)) <> 0%nat ->
  deliverDailyLessons env cfg w =
    forEach (map_to_list (users w)) (fun '(chatId, _) => deliverEntry env cfg chatId)
      (record (ConsoleLog (DeliveringDailyLessons (clock env (length (trace w)))
                             (length (map_to_list (users w))))) w).2.
Proof.
  intros H. unfold deliverDailyLessons, bind, now, gets, consoleLog, record. simpl.
  by destruct (Nat.eqb_spec (length (map_to_list (users w))) 0).
Qed.

(** The daily job as a whole: it ends normally, and what its loop
    guarantees holds of the subscribers it started with. *)
Lemma deliverDailyLessons_spec env cfg w :
  let out := deliverDailyLessons env cfg w in
  out.1 = Ok tt /\
  exists new,
    trace out.2 = new ++ trace w /\
    (forall k st, users w !! k = Some st ->
       if currentLesson st >=? totalLessons cfg then users out.2 !! k = Some st
       else processed k st new (users out.2 !! k)) /\
    (forall ev chat e, ev ∈ new -> failedChunkSend ev = Some (chat, e) ->
       exists k st,
         users w !! k = Some st /\
         currentLesson st < totalLessons cfg /\
         chat = normalizeChatId (ChatString k) /\
         users out.2 !! k = Some st /\
         ConsoleError (FailedToDeliver (currentLesson st + 1) (ChatString k) e) ∈ new).
Proof.
  intros out. subst out.
  destruct (Nat.eqb_spec (length (map_to_list (users w))) 0) as [Hempty|Hsome].
  - rewrite deliverDailyLessons_empty by done.
    split; [done|]. exists []. split; [done|]. split.
    + intros k st Hst. apply length_zero_iff_nil in Hempty.
      assert (k ∈ (map_to_list (users w)).*1) as Hin by (apply elem_of_keys; by eexists).
      rewrite Hempty in Hin. by apply elem_of_nil in Hin.
    + intros ev chat e Hin. by apply elem_of_nil in Hin.
  - rewrite deliverDailyLessons_run by done.
    set (announce := ConsoleLog (DeliveringDailyLessons (clock env (length (trace w)))
                                   (length (map_to_list (users w))))).
    destruct (deliverLoop_spec env cfg (map_to_list (users w)) (record announce w).2)
      as (Hok & new & Ht & _ & Hin & Hfail); [apply NoDup_fst_map_to_list|].
    split; [done|]. exists (new ++ [announce]). rewrite Ht. simpl in *.
    split; [by rewrite <- app_assoc|].
    assert (forall ev, ev ∈ new -> ev ∈ new ++ [announce]) as Hsub
      by (intros ev ?; apply elem_of_app; auto).
    split.
    + intros k st Hst. specialize (Hin k st).
      destruct (currentLesson st >=? totalLessons cfg).
      * apply Hin; [apply elem_of_keys; by eexists | done].
      * apply (processed_mono _ _ new); [exact Hsub|].
        apply Hin; [apply elem_of_keys; by eexists | done].
    + intros ev chat e Hev Hchunk. apply elem_of_app in Hev as [Hev|Hev].
      * destruct (Hfail ev chat e Hev Hchunk) as (k & st & _ & Hst & Hdue & Hchat & Hafter & Hlog).
        exists k, st. repeat split; try done. by apply Hsub.
      * apply list_elem_of_singleton in Hev as ->. done.
Qed.

(** C1: in a run of the daily job, if a send of a lesson chunk to the chat
    of subscriber [S] fails (and [S] is the only subscriber with that
    chat), then the job still ends normally; the record of [S] is what it
    was before the run, so [S] is still due; the console has the failure
    with the key of [S], the lesson number and the error of the failed
    send; and every subscriber that was due has been processed: its
    record moved on, or its own failure is on the console. *)
Theorem daily_text_failure_isolated env cfg w S st ev e :
  users w !! S = Some st ->
  (forall K, is_Some (users w !! K) ->
     normalizeChatId (ChatString K) = normalizeChatId (ChatString S) -> K = S) ->
  ev ∈ newEvents w (deliverDailyLessons env cfg w).2 ->
  failedChunkSend ev = Some (normalizeChatId (ChatString S), e) ->
  let out := deliverDailyLessons env cfg w in
  out.1 = Ok tt /\
  users out.2 !! S = Some st /\
  currentLesson st < totalLessons cfg /\
  ConsoleError (FailedToDeliver (currentLesson st + 1) (ChatString S) e)
    ∈ newEvents w out.2 /\
  forall U stU,
    users w !! U = Some stU -> currentLesson stU < totalLessons cfg ->
    processed U stU (newEvents w out.2) (users out.2 !! U).
Proof.
  intros HS Hunique Hev Hchunk out. subst out.
  destruct (deliverDailyLessons_spec env cfg w) as (Hok & new & Ht & Hall & Hfail).
  rewrite (newEvents_app _ _ _ Ht) in *.
  destruct (Hfail ev _ e Hev Hchunk) as (k & st' & Hst' & Hdue & Hchat & Hafter & Hlog).
  assert (k = S) as -> by (apply Hunique; [by eexists | done]).
  assert (st' = st) as -> by congruence.
  repeat split; try done.
  intros U stU HU HdueU. specialize (Hall U stU HU).
  by rewrite (geb_false _ _ HdueU) in Hall.
Qed.


(** C3, amended: what [sendLessonToUser chat lessonIndex] does to the
    record of a registered chat.  For a lesson that exists, when the
    delivery goes through it sets
    [currentLesson = min(lessonIndex + 1, totalLessons)], whatever the value
    was (it takes no maximum with it), and [lastSentAt] to the time after
    the delivery, and keeps [joinedAt]; when the delivery throws the record
    is what it was.  Past the last lesson, it sets [currentLesson] to the
    number of lessons when the message that all lessons are done goes
    through, and leaves the record otherwise.  So [currentLesson] does not
    decrease when it was at most [lessonIndex + 1] and at most
    [totalLessons] (as at every call the script makes: the daily job passes
    the record's own [currentLesson], and [/start] passes [0] for a record
    it has just created). *)
Theorem sendLessonToUser_sets_min env cfg chat lessonIndex w r :
  users w !! String_ chat = Some r ->
  let sent := sendLessonAssets env cfg chat lessonIndex w in
  let out := sendLessonToUser env cfg chat lessonIndex w in
  exists r',
    users out.2 !! String_ chat = Some r' /\
    (lessonIndex < totalLessons cfg ->
       match sent.1 with
       | Ok _ =>
           currentLesson r' = Z.min (lessonIndex + 1) (totalLessons cfg) /\
           lastSentAt r' = Some (clock env (length (trace sent.2))) /\
           joinedAt r' = joinedAt r
       | Throw _ => r' = r
       end) /\
    (totalLessons cfg <= lessonIndex ->
       match failure env (length (trace w))
               (sendMessage (normalizeChatId chat) AllLessonsDone) with
       | None =>
           currentLesson r' = Z.min (lessonIndex + 1) (totalLessons cfg) /\
           lastSentAt r' = lastSentAt r /\
           joinedAt r' = joinedAt r
       | Some _ => r' = r
       end) /\
    (r' = r \/ currentLesson r' = Z.min (lessonIndex + 1) (totalLessons cfg)) /\
    (currentLesson r <= lessonIndex + 1 -> currentLesson r <= totalLessons cfg ->
     currentLesson r <= currentLesson r').
Proof.
  intros Hr sent out. subst sent out.
  destruct (Z.lt_ge_cases lessonIndex (totalLessons cfg)) as [Hdue|Hdone].
  - destruct (sendLessonToUser_due env cfg chat lessonIndex w r Hr Hdue) as [_ Hout].
    pose proof (sendLessonAssets_store env cfg chat lessonIndex w) as Hstore.
    destruct (sendLessonAssets env cfg chat lessonIndex w) as [[[]|e] w1]; simpl in *.
    + destruct Hout as (tail & _ & _ & ->). eexists.
      rewrite lookup_insert_eq. split; [done|]. simpl.
      split; [intros _; split; [lia | done]|]. split; [lia|].
      split; [right; lia | lia].
    + rewrite Hout. simpl.
      assert (users w1 = users w) as -> by (unfold store in Hstore; congruence).
      exists r. split; [done|]. split; [done|]. split; [lia|]. split; [by left | lia].
  - rewrite (sendLessonToUser_past env cfg chat lessonIndex w r Hr Hdone).
    destruct (failure env (length (trace w))
                (sendMessage (normalizeChatId chat) AllLessonsDone)).
    + exists r. split; [done|]. split; [lia|]. split; [done|]. split; [by left | lia].
    + eexists. rewrite lookup_insert_eq. split; [done|]. simpl.
      split; [lia|]. split; [intros _; split; [lia | done]|].
      split; [right; lia | lia].
Qed.

(** C4, amended: when there is no lesson text at [lessonIndex] (no entry,
    or an empty string), [sendLessonAssets] makes one call, the send of the
    message that the lesson is not available, ends as that call ends, and
    leaves the subscribers and the progress files as they were. *)
Theorem sendLessonAssets_unavailable env cfg chat lessonIndex w :
  lessonAt cfg lessonIndex = None \/ lessonAt cfg lessonIndex = Some [] ->
  let notice := sendMessage (normalizeChatId chat) (LessonUnavailable (lessonIndex + 1)) in
  let out := sendLessonAssets env cfg chat lessonIndex w in
  out = perform env notice w /\
  newEvents w out.2 = [Called notice (failure env (length (trace w)) notice)] /\
  users out.2 = users w /\
  progressFile out.2 = progressFile w /\
  tmpFile out.2 = tmpFile w.
Proof.
  intros Hmissing notice out.
  assert (out = perform env notice w) as Hout.
  { subst out notice. unfold sendLessonAssets. by destruct Hmissing as [-> | ->]. }
  split; [done|]. rewrite Hout. unfold perform, newEvents.
  destruct (failure env (length (trace w)) notice); simpl;
    replace (S (length (trace w)) - length (trace w))%nat with 1%nat by lia; done.
Qed.

(** No event of [sendLessonAssets] is a write of the progress file. *)
Definition notWritten (ev : event) : Prop :=
  match ev with Called c _ => isFileWrite c = false | _ => True end.

Lemma sendLessonAssets_notWritten env cfg chat lessonIndex :
  emits notWritten (sendLessonAssets env cfg chat lessonIndex).
Proof.
  unfold sendLessonAssets.
  destruct (lessonAt cfg lessonIndex) as [[|c text]|]; try by apply emits_perform.
  apply emits_bind; [by apply guarded_emits|intros _].
  apply emits_bind; [apply emits_forEach; intros ?; by apply emits_perform|intros _].
  apply emits_bind; [by apply guarded_emits|intros _].
  destruct (videoAt cfg lessonIndex); [by apply emits_perform | apply emits_ret].
Qed.

(** C8: for a registered subscriber and a lesson number [n] between [1]
    and the number of lessons, the [/lesson n] handler announces the lesson
    and runs [sendLessonAssets] for index [n - 1], and it writes nothing:
    the subscribers in memory, the record of the subscriber among them, and
    the progress files are what they were, and no call writes a file,
    whatever the sends do.  What it delivers: the messages it has sent are
    always, in order, a prefix of the announcement, the chunks of the text
    of lesson [n - 1] and the video message of that lesson if it has one
    (for a lesson whose text is empty: of the announcement and the notice
    that the lesson is not available); they are all of them when the
    handler returns normally, which it does when no [sendMessage] is
    rejected; and then the image and the audio of the lesson have been sent
    too, each when its file can be accessed and the client takes it. *)
Theorem onLesson_leaves_record env cfg chat n w r :
  users w !! String_ (ChatNumber chat) = Some r ->
  1 <= n <= totalLessons cfg ->
  let out := onLesson env cfg chat n w in
  let new := newEvents w out.2 in
  let to := normalizeChatId (ChatNumber chat) in
  let imagePath := pathJoin (IMAGES_DIR cfg) ("devine-name-" +:+ pretty n +:+ ".jpg") in
  let audioPath :=
    pathJoin (AUDIO_DIR cfg) ("lesson_" +:+ padStart3 (pretty n) +:+ ".wav") in
  out = (perform env (sendMessage (ChatNumber chat) (LessonOnRequest n)) >>
         sendLessonAssets env cfg (ChatNumber chat) (n - 1)) w /\
  users out.2 = users w /\
  users out.2 !! String_ (ChatNumber chat) = Some r /\
  progressFile out.2 = progressFile w /\
  tmpFile out.2 = tmpFile w /\
  Forall notWritten new /\
  exists text,
    lessons cfg !! Z.to_nat (n - 1) = Some text /\
    let expected :=
      (ChatNumber chat, LessonOnRequest n) ::
      match text with
      | [] => [(to, LessonUnavailable n)]
      | _ :: _ =>
          map (fun chunk => (to, LessonChunk chunk)) (formatChunks text) ++
          match videoAt cfg (n - 1) with
          | Some videoMeta => [(to, VideoCaption (videoCaptionLines videoMeta))]
          | None => []
          end
      end in
    sentMessages new `prefix_of` expected /\
    (out.1 = Ok tt -> sentMessages new = expected) /\
    (sendsNeverFail env -> out.1 = Ok tt) /\
    (text <> [] -> out.1 = Ok tt ->
     ((forall k, failure env k (access imagePath) = None) ->
      (forall k, failure env k (sendPhoto to imagePath n) = None) ->
      Called (sendPhoto to imagePath n) None ∈ new) /\
     ((forall k, failure env k (access audioPath) = None) ->
      (forall k, failure env k (sendAudio to audioPath) = None) ->
      Called (sendAudio to audioPath) None ∈ new)).
Proof.
  intros Hr Hn out new to imagePath audioPath.
  assert (out = (perform env (sendMessage (ChatNumber chat) (LessonOnRequest n)) >>
                 sendLessonAssets env cfg (ChatNumber chat) (n - 1)) w) as Hout.
  { subst out. unfold onLesson.
    replace (n <? 1) with false by (symmetry; apply Z.ltb_ge; lia).
    replace (n >? totalLessons cfg) with false; [done|].
    symmetry. rewrite Z.gtb_ltb. apply Z.ltb_ge. lia. }
  split; [done|]. subst new. rewrite Hout. clear out Hout.
  assert (store ((perform env (sendMessage (ChatNumber chat) (LessonOnRequest n)) >>
                 sendLessonAssets env cfg (ChatNumber chat) (n - 1)) w).2 = store w) as Hstore.
  { apply (preserves_bind (fun w' => store w' = store w)); [| |done].
    - apply preserves_perform_send; [apply store_ignoresTrace | done].
    - intros _. apply sendLessonAssets_preserves, store_ignoresTrace. }
  unfold store in Hstore. injection Hstore as Hu Hp Ht.
  rewrite Hu, Hp, Ht. do 4 (split; [done|]).
  split.
  { destruct (emits_bind notWritten
                (perform env (sendMessage (ChatNumber chat) (LessonOnRequest n)))
                (fun _ => sendLessonAssets env cfg (ChatNumber chat) (n - 1))) with (w := w)
      as (added & Hadded & Hforall).
    - by apply emits_perform.
    - intros _. apply sendLessonAssets_notWritten.
    - by rewrite (newEvents_app _ _ _ Hadded). }
  assert (is_Some (lessons cfg !! Z.to_nat (n - 1))) as [text Htext].
  { apply lookup_lt_is_Some. unfold totalLessons in Hn. lia. }
  assert (lessonAt cfg (n - 1) = Some text) as Hat.
  { unfold lessonAt. by replace (n - 1 <? 0) with false by (symmetry; apply Z.ltb_ge; lia). }
  assert (n - 1 + 1 = n) as Hnumber by lia.
  exists text. split; [done|]. cbv zeta.
  set (expected := match text with
                   | [] => [(to, LessonUnavailable n)]
                   | _ :: _ =>
                       map (fun chunk => (to, LessonChunk chunk)) (formatChunks text) ++
                       match videoAt cfg (n - 1) with
                       | Some videoMeta => [(to, VideoCaption (videoCaptionLines videoMeta))]
                       | None => []
                       end
                   end).
  assert (delivers env expected (sendLessonAssets env cfg (ChatNumber chat) (n - 1)))
    as Hassets.
  { subst expected. destruct text as [|c rest] eqn:Hshape.
    - rewrite <- Hnumber at 1. apply sendLessonAssets_notice. by right.
    - by apply sendLessonAssets_delivers. }
  destruct (delivers_bind env [(ChatNumber chat, LessonOnRequest n)] expected
              (perform env (sendMessage (ChatNumber chat) (LessonOnRequest n)))
              (fun _ => sendLessonAssets env cfg (ChatNumber chat) (n - 1))
              (delivers_perform env _ _) (fun _ => Hassets) w)
    as (added & Hadded & Hprefix & Hall & Hok).
  rewrite (newEvents_app _ _ _ Hadded).
  split; [done|]. split; [apply Hall|].
  split.
  { intros Hsends. destruct (Hok Hsends) as [[] Hreturn]. exact Hreturn. }
  intros Hne Hreturn. split.
  - intros Haccess Hsend.
    destruct (reaches_later (Called (sendPhoto to imagePath n) None)
                (perform env (sendMessage (ChatNumber chat) (LessonOnRequest n)))
                (fun _ => sendLessonAssets env cfg (ChatNumber chat) (n - 1))) with (w := w)
      as (added' & Hadded' & Hin).
    + by apply emits_perform.
    + intros _.
      pose proof (sendLessonAssets_photo env cfg (ChatNumber chat) (n - 1) text Hat Hne
                    imagePath) as Hphoto.
      rewrite Hnumber in Hphoto. by apply Hphoto.
    + rewrite Hadded in Hadded'. apply app_inv_tail in Hadded'. subst added'.
      by apply (Hin tt).
  - intros Haccess Hsend.
    destruct (reaches_later (Called (sendAudio to audioPath) None)
                (perform env (sendMessage (ChatNumber chat) (LessonOnRequest n)))
                (fun _ => sendLessonAssets env cfg (ChatNumber chat) (n - 1))) with (w := w)
      as (added' & Hadded' & Hin).
    + by apply emits_perform.
    + intros _.
      pose proof (sendLessonAssets_audio env cfg (ChatNumber chat) (n - 1) text Hat Hne
                    audioPath) as Haudio.
      rewrite Hnumber in Haudio. by apply Haudio.
    + rewrite Hadded in Hadded'. apply app_inv_tail in Hadded'. subst added'.
      by apply (Hin tt).
Qed.

Lemma deliverEntry_invariant env cfg chatId :
  preserves (progressInvariant cfg) (deliverEntry env cfg chatId).
Proof.
  intros w Hinv.
  destruct (users w !! chatId) as [state|] eqn:Hstate;
    [|by rewrite deliverEntry_absent].
  destruct (currentLesson state >=? totalLessons cfg) eqn:Hdue;
    [by rewrite (deliverEntry_notDue env cfg chatId w state)|].
  rewrite (deliverEntry_run env cfg chatId w state) by done.
  apply preserves_bind; [| |done].
  - apply sendLessonToUser_invariant. by apply (Hinv chatId state).
  - intros _. apply preserves_record, ignoresFiles_trace, progressInvariant_ignoresFiles.
Qed.

(** C9: every operation of the bot (the four commands and the daily job)
    keeps [0 <= currentLesson <= number of lessons] for every subscriber,
    whatever the sends and the file system do. *)
Theorem operations_keep_invariant env cfg op w :
  progressInvariant cfg w -> progressInvariant cfg (run env cfg op w).2.
Proof.
  pose proof (progressInvariant_ignoresFiles cfg) as Hfiles.
  pose proof (ignoresFiles_trace _ Hfiles) as Htrace.
  assert (forall c, preserves (progressInvariant cfg) (perform env c)) as Hperform
    by (intros; by apply preserves_perform).
  assert (preserves (progressInvariant cfg) (saveProgress env cfg)) as Hsave.
  { unfold saveProgress. apply preserves_bind; [apply preserves_gets|intros ?].
    apply preserves_bind; [apply Hperform | intros _; apply Hperform]. }
  revert w. change (preserves (progressInvariant cfg) (run env cfg op)).
  destruct op as [chat|chat|chat n|chat|]; simpl.
  - unfold onStart. apply preserves_bind; [apply preserves_gets|].
    intros [existing|].
    + apply preserves_bind; [apply Hperform | intros _; apply Hperform].
    + apply preserves_bind; [apply ensureUserState_invariant | intros _].
      apply preserves_bind; [apply Hsave | intros _].
      apply preserves_bind; [apply Hperform | intros _].
      apply preserves_bind; [by apply sendLessonToUser_invariant | intros _].
      apply Hperform.
  - unfold onProgress. apply preserves_bind; [apply preserves_gets|].
    intros [existing|]; apply Hperform.
  - unfold onLesson.
    destruct ((n <? 1) || (n >? totalLessons cfg)); [apply Hperform|].
    apply preserves_bind; [apply Hperform | intros _].
    by apply sendLessonAssets_preserves.
  - apply Hperform.
  - unfold dailyJob. apply preserves_tryCatch.
    + unfold deliverDailyLessons. apply preserves_bind; [apply preserves_gets|].
      intros userEntries.
      destruct (length userEntries =? 0)%nat; [apply preserves_ret|].
      apply preserves_bind.
      * apply preserves_bind; [apply preserves_now | intros ?; by apply preserves_record].
      * intros _. apply preserves_forEach. intros [chatId state].
        apply deliverEntry_invariant.
    + intros e. by apply preserves_record.
Qed.

End BotClaims.

(** ** The properties at concrete inputs *)

Module Checks.
Import Chunker Bot BotFacts BotNotions BotClaims Scenario.

Ltac find_event :=
  vm_compute; repeat first [apply list_elem_of_here | apply list_elem_of_further].

(** The chunker on short limits: a cut at a space, a hard cut, and white
    space dropped at the cuts. *)
Example formatChunks_words :
  formatChunksAt 5 (js "hello world foo") = Some [js "hello"; js "worl"; js "d foo"].
Proof. reflexivity. Qed.

Example formatChunks_hard_cut :
  formatChunksAt 5 (js "abcdefghijkl") = Some [js "abcde"; js "fghij"; js "kl"].
Proof. reflexivity. Qed.

Example formatChunks_blank :
  formatChunks (js "   ") = [].
Proof. reflexivity. Qed.

Lemma twoSubscribers_distinct_chats K :
  is_Some (users twoSubscribers !! K) ->
  normalizeChatId (ChatString K) = normalizeChatId (ChatString "1") -> K = "1".
Proof.
  intros [r HK] Hchat. unfold twoSubscribers, initialWorld in HK. simpl in HK.
  rewrite lookup_insert in HK. case_decide; [by subst|].
  rewrite lookup_insert in HK. case_decide.
  - subst K. vm_compute in Hchat. discriminate.
  - rewrite lookup_empty in HK. discriminate.
Defined.

Lemma daily_text_failure_isolated_witness :
  let out := deliverDailyLessons chunksToOneFail threeLessons twoSubscribers in
  out.1 = Ok tt /\
  users out.2 !! "1" = Some fresh /\
  currentLesson fresh < totalLessons threeLessons /\
  ConsoleError (FailedToDeliver (currentLesson fresh + 1) (ChatString "1")
                  (TelegramError "ETELEGRAM"))
    ∈ newEvents twoSubscribers out.2 /\
  forall U stU,
    users twoSubscribers !! U = Some stU -> currentLesson stU < totalLessons threeLessons ->
    processed U stU (newEvents twoSubscribers out.2) (users out.2 !! U).
Proof.
  apply (daily_text_failure_isolated chunksToOneFail threeLessons twoSubscribers "1" fresh
           (Called (sendMessage (ChatNumber 1) (LessonChunk (js "one")))
                   (Some (TelegramError "ETELEGRAM")))
           (TelegramError "ETELEGRAM")).
  - reflexivity.
  - apply twoSubscribers_distinct_chats.
  - find_event.
  - reflexivity.
Defined.

(** C2 at a failing input: one subscriber at lesson 1, whose text goes
    through and whose video message is refused.  The run sends the chunk,
    the send of the video message fails, and the daily job leaves the
    record as it was, with the failure of the whole delivery on the
    console: progress is not advanced. *)
Theorem video_failure_blocks_progress :
  let out := deliverDailyLessons videoFails threeLessons oneSubscriber in
  Called (sendMessage (ChatNumber 7) (LessonChunk (js "one"))) None
    ∈ newEvents oneSubscriber out.2 /\
  Called (sendMessage (ChatNumber 7) (VideoCaption (videoCaptionLines video)))
         (Some (TelegramError "ETELEGRAM"))
    ∈ newEvents oneSubscriber out.2 /\
  ConsoleError (FailedToDeliver 1 (ChatString "7") (TelegramError "ETELEGRAM"))
    ∈ newEvents oneSubscriber out.2 /\
  users out.2 !! "7" = Some fresh /\
  users out.2 !! "7" <> Some (advanced fresh 0 "T4").
Proof.
  repeat split; try find_event; try reflexivity.
  vm_compute. discriminate.
Qed.

(** C3 fails as stated: after a delivery of lesson index 5 the record is at
    6, and a later delivery of index 0 puts it back to 1. *)
Lemma advance_can_regress :
  let w1 := (sendLessonToUser calm tenLessons (ChatNumber 42) 5 subscriberAtOne).2 in
  let w2 := (sendLessonToUser calm tenLessons (ChatNumber 42) 0 w1).2 in
  lessonOf w1 "42" = Some 6 /\ lessonOf w2 "42" = Some 1 /\ ~ (6 <= 1).
Proof. repeat split; try (vm_compute; reflexivity). lia. Qed.

(** The amended property at a delivery that goes through: lesson index 5
    of ten, to a subscriber at 1, leaves the record at 6 with the time after
    the delivery. *)
Lemma sendLessonToUser_sets_min_witness :
  exists r',
    users (sendLessonToUser calm tenLessons (ChatNumber 42) 5 subscriberAtOne).2
      !! String_ (ChatNumber 42) = Some r' /\
    currentLesson r' = 6 /\
    lastSentAt r' = Some "T3" /\
    joinedAt r' = "T0".
Proof.
  destruct (sendLessonToUser_sets_min calm tenLessons (ChatNumber 42) 5 subscriberAtOne atOne)
    as (r' & Hr' & Hdue & _); [vm_compute; reflexivity|].
  exists r'. split; [exact Hr'|].
  assert (5 < totalLessons tenLessons) as Hlt by (vm_compute; reflexivity).
  specialize (Hdue Hlt). vm_compute in Hdue. exact Hdue.
Defined.

(** C4 fails as stated on the scheduled path: the second lesson is an
    empty string, the subscriber is due for it, and the daily job sends the
    message that the lesson is not available and then moves the record on:
    [currentLesson] goes from 1 to 2 and [lastSentAt] from "T5" to "T2". *)
Lemma unavailable_lesson_advances :
  let out := deliverDailyLessons calm gapAtTwo subscriberAtOne in
  lessonAt gapAtTwo 1 = Some [] /\
  Called (sendMessage (ChatNumber 42) (LessonUnavailable 2)) None
    ∈ newEvents subscriberAtOne out.2 /\
  users subscriberAtOne !! "42" = Some atOne /\
  users out.2 !! "42" =
    Some {| currentLesson := 2; lastSentAt := Some "T2"; joinedAt := "T0" |}.
Proof. repeat split; try find_event; vm_compute; reflexivity. Qed.

Lemma sendLessonAssets_unavailable_witness :
  let notice := sendMessage (normalizeChatId (ChatNumber 42)) (LessonUnavailable (1 + 1)) in
  let out := sendLessonAssets calm gapAtTwo (ChatNumber 42) 1 subscriberAtOne in
  out = perform calm notice subscriberAtOne /\
  newEvents subscriberAtOne out.2 =
    [Called notice (failure calm (length (trace subscriberAtOne)) notice)] /\
  users out.2 = users subscriberAtOne /\
  progressFile out.2 = progressFile subscriberAtOne /\
  tmpFile out.2 = tmpFile subscriberAtOne.
Proof.
  apply (sendLessonAssets_unavailable calm gapAtTwo (ChatNumber 42) 1 subscriberAtOne).
  right. reflexivity.
Defined.

(** [/lesson 1] from a subscriber at lesson 1, with every file there and
    every call going through: the record stays at 1, and the announcement,
    the image, the text, the audio and the video message of lesson 1 go
    out. *)
Lemma onLesson_leaves_record_witness :
  let out := onLesson smooth threeLessons 42 1 subscriberAtOne in
  let new := newEvents subscriberAtOne out.2 in
  users out.2 !! String_ (ChatNumber 42) = Some atOne /\
  sentMessages new =
    [(ChatNumber 42, LessonOnRequest 1);
     (ChatNumber 42, LessonChunk (js "one"));
     (ChatNumber 42, VideoCaption [TitleLine (js "99 names");
                                   UrlLine (js "https://example.org/v")])] /\
  Called (sendPhoto (ChatNumber 42) "images/devine-name-1.jpg" 1) None ∈ new /\
  Called (sendAudio (ChatNumber 42) "tts_audio/lesson_001.wav") None ∈ new.
Proof.
  destruct (onLesson_leaves_record smooth threeLessons 42 1 subscriberAtOne atOne)
    as (_ & _ & Hrecord & _ & _ & _ & text & Htext & Hdelivery).
  - vm_compute. reflexivity.
  - unfold totalLessons. simpl. lia.
  - cbv zeta in Hdelivery. destruct Hdelivery as (_ & Hall & Hok & Hmedia).
    vm_compute in Htext. injection Htext as <-.
    assert (sendsNeverFail smooth) as Hsends by (intros k c t; reflexivity).
    specialize (Hok Hsends).
    destruct (Hmedia ltac:(discriminate) Hok) as [Hphoto Haudio].
    split; [exact Hrecord|]. split; [rewrite (Hall Hok); vm_compute; reflexivity|].
    split; [apply Hphoto | apply Haudio]; intros k; reflexivity.
Defined.

Lemma twoSubscribers_invariant : progressInvariant threeLessons twoSubscribers.
Proof.
  intros k state Hk. unfold twoSubscribers, initialWorld in Hk. simpl in Hk.
  rewrite lookup_insert in Hk. case_decide.
  - injection Hk as <-. unfold totalLessons. simpl. lia.
  - rewrite lookup_insert in Hk. case_decide.
    + injection Hk as <-. unfold totalLessons. simpl. lia.
    + rewrite lookup_empty in Hk. discriminate.
Defined.

Lemma operations_keep_invariant_witness :
  progressInvariant threeLessons
    (run chunksToOneFail threeLessons OpDailyJob twoSubscribers).2.
Proof.
  apply (operations_keep_invariant chunksToOneFail threeLessons OpDailyJob twoSubscribers).
  apply twoSubscribers_invariant.
Defined.

End Checks.

Module StartupChecks.
Import Startup StartupClaims Scenario.

Lemma boot_others progress :
  othersGoThrough "daily_lessons.json" "asma_ul_husna_videos.json"
    (bootInputs progress) twoLessonTexts [] [].
Proof.
  split; [exists "123:ABC"; split; [reflexivity | discriminate]|].
  split; [reflexivity|]. split; reflexivity.
Defined.

(** C6 fails as stated: the progress file exists and holds
    [{"users": 5}], which is not of the expected shape, and the script
    reaches scheduling with an empty [users] object and no subscriber. *)
Lemma misshapen_progress_starts_empty :
  expectedShape usersIsNumber = false /\
  boot (Readable (Some usersIsNumber)) =
    Started {| lessons := twoLessonTexts; videos := []; 
               progress := {["users" := JObject ∅]};
               warnings := []; subscribers := 0 |}.
Proof. split; vm_compute; reflexivity. Qed.

Lemma progress_file_checks_witness :
  boot (Readable None) = Crashed SyntaxError /\
  boot (Readable (Some (JArray []))) =
    Crashed (Error ("Corrupted progress file at " +:+ "data/user_progress.json")) /\
  boot (Readable (Some usersIsNumber)) =
    Started {| lessons := twoLessonTexts; videos := [];
               progress := <["users" := JObject ∅]> {["users" := JNumber 5]};
               warnings := []; subscribers := 0 |}.
Proof.
  split; [|split].
  - destruct (progress_file_checks "daily_lessons.json" "asma_ul_husna_videos.json"
                "data/user_progress.json" (bootInputs (Readable None)) None
                twoLessonTexts [] [] eq_refl) as [Hnone _].
    apply (Hnone eq_refl), boot_others.
  - destruct (progress_file_checks "daily_lessons.json" "asma_ul_husna_videos.json"
                "data/user_progress.json" (bootInputs (Readable (Some (JArray []))))
                (Some (JArray [])) twoLessonTexts [] [] eq_refl) as (_ & Hother & _).
    apply (Hother (JArray []) eq_refl); [discriminate | apply boot_others].
  - destruct (progress_file_checks "daily_lessons.json" "asma_ul_husna_videos.json"
                "data/user_progress.json" (bootInputs (Readable (Some usersIsNumber)))
                (Some usersIsNumber) twoLessonTexts [] [] eq_refl) as (_ & _ & Hobject).
    apply (Hobject {["users" := JNumber 5]} eq_refl); [reflexivity | apply boot_others].
Defined.

(** C7 fails as stated: of 100 lessons supplied, 99 are loaded. *)
Lemma hundred_lessons_load_99 :
  length hundredLessons = 100%nat /\
  exists loaded,
    loadLessons "daily_lessons.json" (Readable (Some (JArray hundredLessons))) = Ok loaded /\
    length loaded = 99%nat /\ length loaded <> 100%nat.
Proof.
  split; [reflexivity|]. eexists. split; [vm_compute; reflexivity|].
  split; [reflexivity | discriminate].
Qed.

Lemma loadLessons_keeps_99_witness :
  loadLessons "daily_lessons.json" (Readable (Some (JArray hundredLessons))) =
    Ok (take 99 hundredLessons) /\
  length (take 99 hundredLessons) = 99%nat.
Proof.
  apply (loadLessons_keeps_99 "daily_lessons.json" hundredLessons).
  unfold hundredLessons. rewrite length_replicate. lia.
Defined.

Lemma startup_without_progress_file_witness :
  boot NoSuchFile =
    Started {| lessons := twoLessonTexts; videos := [];
               progress := {["users" := JObject ∅]};
               warnings := []; subscribers := 0 |}.
Proof.
  apply (startup_without_progress_file "daily_lessons.json" "asma_ul_husna_videos.json"
           "data/user_progress.json" (bootInputs NoSuchFile) (SystemError "ENOENT")
           twoLessonTexts [] []).
  - reflexivity.
  - reflexivity.
  - apply boot_others.
Defined.

End StartupChecks.

(** ** The chunker: further properties *)

Module ChunkerExtras.
Import Chunker ChunkerFacts.

(** *** Where [lastIndexOf] points *)

Lemma scanLast_spec c text : forall pos fromIndex found,
  let r := scanLast c text pos fromIndex found in
  (r = found /\ forall j, (pos + j <= fromIndex)%nat -> text !! j <> Some c) \/
  (exists j, r = Z.of_nat (pos + j) /\ (pos + j <= fromIndex)%nat /\ text !! j = Some c /\
     forall j', (j < j')%nat -> (pos + j' <= fromIndex)%nat -> text !! j' <> Some c).
Proof.
  induction text as [|x rest IH]; intros pos fromIndex found; simpl.
  - left. split; [done|]. by intros j _.
  - destruct (Nat.ltb_spec fromIndex pos) as [Hlt|Hge].
    + left. split; [done|]. intros j Hle. lia.
    + specialize (IH (S pos) fromIndex (if (x =? c)%N then Z.of_nat pos else found)).
      simpl in IH. destruct IH as [[Hr Hnone]|(j & Hr & Hle & Hj & Hlast)].
      * destruct (N.eqb_spec x c) as [->|Hne].
        -- right. exists 0%nat. rewrite Hr. split; [f_equal; lia|].
           split; [lia|]. split; [done|].
           intros [|j'] Hlt Hle; [lia|]. simpl. apply Hnone. lia.
        -- left. split; [done|]. intros [|j] Hle; simpl.
           ++ congruence.
           ++ apply Hnone. lia.
      * right. exists (S j). rewrite Hr. split; [f_equal; lia|].
        split; [lia|]. split; [done|].
        intros [|j'] Hlt Hle'; [lia|]. simpl. apply Hlast; lia.
Qed.

(** [text.lastIndexOf(c, fromIndex)] is [-1] when no position up to
    [fromIndex] holds [c], and otherwise the last such position. *)
Lemma lastIndexOf_spec text c fromIndex :
  (lastIndexOf text c fromIndex = -1 /\
   forall i, (i <= fromIndex)%nat -> text !! i <> Some c) \/
  (exists i, lastIndexOf text c fromIndex = Z.of_nat i /\ (i <= fromIndex)%nat /\
     text !! i = Some c /\
     forall i', (i < i')%nat -> (i' <= fromIndex)%nat -> text !! i' <> Some c).
Proof.
  unfold lastIndexOf.
  destruct (scanLast_spec c text 0 fromIndex (-1)) as [[Hr Hnone]|(j & Hr & Hle & Hj & Hlast)].
  - left. split; [done|]. intros i Hi. apply Hnone. lia.
  - right. exists j. simpl in *. repeat split; try done.
Qed.

(** The same for the window of one iteration: [lastIndexOf] from
    [start + limit] is at most [start] when the window after [start] has no
    [c], and otherwise the last position of the window with [c]. *)
Lemma lastIndexOf_window text c start limit :
  (lastIndexOf text c (start + limit) <= Z.of_nat start /\
   forall i, (start < i <= start + limit)%nat -> text !! i <> Some c) \/
  (exists p, lastIndexOf text c (start + limit) = Z.of_nat p /\
     (start < p <= start + limit)%nat /\ text !! p = Some c /\
     forall i, (p < i)%nat -> (i <= start + limit)%nat -> text !! i <> Some c).
Proof.
  destruct (lastIndexOf_spec text c (start + limit))
    as [[Hr Hnone]|(p & Hr & Hp & Hat & Hlast)].
  - left. split; [lia|]. intros i Hi. apply Hnone. lia.
  - destruct (decide (start < p)%nat) as [Hlt|Hge].
    + right. exists p. repeat split; try done; lia.
    + left. split; [lia|]. intros i Hi. apply Hlast; lia.
Qed.

Lemma leb_nat_false p start :
  (start < p)%nat -> (Z.of_nat p <=? Z.of_nat start) = false.
Proof. intros H. apply Z.leb_gt. lia. Qed.

(** X7. One iteration of the loop on a text that does not fit from
    [start]: the loop goes on from the cut, with the trimmed segment pushed
    when it is not empty; the cut is strictly after [start] and at most
    [limit] further, at the last line feed of that window when it has one,
    otherwise at its last space when it has one, otherwise at
    [start + limit]. *)
Theorem splitPoint_prefers_breaks limit text start :
  (0 < limit)%nat ->
  (limit < length text - start)%nat ->
  let split := Z.to_nat (splitPoint limit text start) in
  let inWindow i := (start < i <= start + limit)%nat in
  (forall fuel chunks,
     formatLoop limit (S fuel) text start chunks =
       formatLoop limit fuel text split
         (if truthyString (trim (slice text start split))
          then chunks ++ [trim (slice text start split)] else chunks)) /\
  (start < split <= start + limit)%nat /\
  ((exists i, inWindow i /\ text !! i = Some LF) ->
     text !! split = Some LF /\
     forall i, (split < i)%nat -> inWindow i -> text !! i <> Some LF) /\
  ((forall i, inWindow i -> text !! i <> Some LF) ->
   (exists i, inWindow i /\ text !! i = Some SP) ->
     text !! split = Some SP /\
     forall i, (split < i)%nat -> inWindow i -> text !! i <> Some SP) /\
  ((forall i, inWindow i -> text !! i <> Some LF /\ text !! i <> Some SP) ->
     split = (start + limit)%nat).
Proof.
  intros Hlimit Hlong split inWindow. subst split inWindow. cbv beta.
  split.
  { intros fuel chunks. rewrite formatLoop_step by lia.
    by replace (length text - start <=? limit)%nat with false
      by (symmetry; apply Nat.leb_gt; lia). }
  pose proof (splitPoint_range limit text start Hlimit) as Hrange.
  split; [lia|]. clear Hrange. unfold splitPoint.
  destruct (lastIndexOf_window text LF start limit)
    as [[HrLF HnoLF]|(p & HrLF & HpLF & HatLF & HlastLF)].
  - rewrite (proj2 (Z.leb_le _ _) HrLF).
    split; [intros (i & Hi & Hati); by destruct (HnoLF i Hi)|].
    destruct (lastIndexOf_window text SP start limit)
      as [[HrSP HnoSP]|(q & HrSP & HpSP & HatSP & HlastSP)].
    + rewrite (proj2 (Z.leb_le _ _) HrSP), Nat2Z.id.
      split; [intros _ (i & Hi & Hati); by destruct (HnoSP i Hi) | done].
    + rewrite HrSP, (leb_nat_false q start), Nat2Z.id by lia.
      split; [intros _ _; split; [done|]; intros i Hlt Hi; apply HlastSP; lia|].
      intros Hall. by destruct (Hall q HpSP) as [_ HSP].
  - rewrite HrLF, !(leb_nat_false p start), Nat2Z.id by lia.
    split; [intros _; split; [done|]; intros i Hlt Hi; apply HlastLF; lia|].
    split; [intros Hno; by destruct (Hno p HpLF)|].
    intros Hall. by destruct (Hall p HpLF) as [HLF _].
Qed.

(** *** Short texts and trimmed chunks *)

Lemma formatChunksAt_short limit text :
  (length text <= limit)%nat ->
  formatChunksAt limit text =
    Some (if truthyString (trim text) then [trim text] else []).
Proof.
  intros Hshort. unfold formatChunksAt.
  destruct text as [|x rest].
  - by rewrite formatLoop_done.
  - rewrite formatLoop_step by (simpl; lia).
    replace (length (x :: rest) - 0 <=? limit)%nat with true
      by (symmetry; apply Nat.leb_le; lia).
    rewrite slice_to_end, drop_0. cbn [fmap option_fmap option_map app].
    f_equal. destruct (trim (x :: rest)) as [|y t] eqn:Htrim.
    + by rewrite filter_cons_False by (simpl; congruence).
    + by rewrite filter_cons_True by done.
Qed.

(** X5. A text of at most 4096 code units goes out as one message, the
    trimmed text; nothing is sent for a text that is empty or white space
    only. *)
Theorem formatChunks_short text :
  (length text <= 4096)%nat ->
  formatChunks text = if truthyString (trim text) then [trim text] else [].
Proof.
  intros Hshort. unfold formatChunks. by rewrite formatChunksAt_short.
Qed.

Lemma trimStart_head s x rest : trimStart s = x :: rest -> isWhiteSpace x = false.
Proof.
  induction s as [|c s IH]; simpl; [done|].
  destruct (isWhiteSpace c) eqn:Hc; [done|]. by intros [= <- _].
Qed.

Lemma trimStart_fixed s x rest :
  s = x :: rest -> isWhiteSpace x = false -> trimStart s = s.
Proof. intros -> Hx. simpl. by rewrite Hx. Qed.

(** What [trim] returns starts and ends with a code unit that is not white
    space, unless it is empty. *)
Lemma trim_ends s :
  trim s = [] \/
  exists first last,
    head (trim s) = Some first /\ isWhiteSpace first = false /\
    List.last (trim s) first = last /\ isWhiteSpace last = false.
Proof.
  unfold trim, trimEnd.
  destruct (trimStart (rev (trimStart s))) as [|y back] eqn:Hback; [by left|].
  right. pose proof (trimStart_head _ _ _ Hback) as Hy.
  destruct (trimStart s) as [|x front] eqn:Hfront; [done|].
  pose proof (trimStart_head _ _ _ Hfront) as Hx.
  destruct (trimStart_split (rev (x :: front))) as (a & Hsplit & Ha).
  rewrite Hback in Hsplit.
  assert (x :: front = rev (y :: back) ++ rev a) as Hrev.
  { rewrite <- rev_app_distr, <- Hsplit. by rewrite rev_involutive. }
  destruct (rev (y :: back)) as [|z body] eqn:Hz.
  { apply (f_equal (@length N)) in Hz. rewrite length_rev in Hz. done. }
  injection Hrev as <- _.
  exists x, y. split; [done|]. split; [done|]. split; [|done].
  rewrite <- Hz. simpl. by rewrite last_last.
Qed.

(** X6. No chunk of [formatChunks] starts or ends with white space: its
    first and its last code unit are not white space. *)
Theorem formatChunks_trimmed text :
  Forall (fun c => exists first last,
            head c = Some first /\ isWhiteSpace first = false /\
            List.last c first = last /\ isWhiteSpace last = false)
         (formatChunks text).
Proof.
  unfold formatChunks.
  destruct (formatChunksAt_spec _ MAX_MESSAGE_LENGTH_pos text)
    as (chunks & gaps & -> & Hchunks & _).
  cbn [default]. eapply Forall_impl; [exact Hchunks|].
  intros c [Hne [_ (from & to & ->)]].
  by destruct (trim_ends (slice text from to)) as [H|H].
Qed.

End ChunkerExtras.

(** ** Start-up: further properties *)

Module StartupExtras.
Import Startup StartupClaims.

Section Paths.
Context (LESSONS_PATH VIDEOS_PATH PROGRESS_PATH : string).

Local Abbreviation startup := (startup LESSONS_PATH VIDEOS_PATH PROGRESS_PATH).

(** With 99 images and 100 audio files, the limit is 99 lessons. *)
Lemma take_limit (data : list json) :
  take (TOTAL_IMAGE_FILES `min` (TOTAL_AUDIO_FILES `min` length data))%nat data
  = take 99 data.
Proof.
  unfold TOTAL_IMAGE_FILES, TOTAL_AUDIO_FILES.
  destruct (Nat.le_ge_cases 99 (length data)).
  - by replace (99 `min` (100 `min` length data))%nat with 99%nat by lia.
  - rewrite !take_ge; [done | lia | lia].
Qed.

(** The number of lessons that [loadLessons] returns. *)
Lemma loadLessons_length lessonsFile loaded :
  loadLessons LESSONS_PATH lessonsFile = Ok loaded -> (1 <= length loaded <= 99)%nat.
Proof.
  unfold loadLessons. destruct lessonsFile as [e|[v|]].
  - unfold readJsonFile, tryCatch. simpl. destruct (isENOENT e); simpl; done.
  - rewrite readJsonFile_readable. cbn [JSON_parse bind].
    destruct v as [| | | |data|]; try done.
    rewrite take_limit.
    destruct (Nat.eqb_spec (length (take 99 data)) 0) as [|Hne]; [done|].
    intros [= <-]. rewrite length_take in *. lia.
  - by rewrite readJsonFile_readable.
Qed.

(** The number of videos that [loadVideos] returns. *)
Lemma loadVideos_length videosFile lessonCount videos warnings :
  loadVideos VIDEOS_PATH videosFile lessonCount = Ok (videos, warnings) ->
  (length videos <= lessonCount)%nat.
Proof.
  unfold loadVideos. destruct videosFile as [e|[v|]].
  - unfold readJsonFile, tryCatch. simpl.
    destruct (isENOENT e); simpl; [|done]. intros [= <- <-].
    rewrite length_take; lia.
  - rewrite readJsonFile_readable. cbn [JSON_parse bind].
    destruct v as [| | | |data|]; intros [= <- <-]; simpl; try lia.
    rewrite length_take; lia.
  - by rewrite readJsonFile_readable.
Qed.

(** X2. [loadLessons] succeeds exactly when the lessons file can be read
    and holds a JSON array that is not empty, and then returns the first 99
    entries of it: between 1 and 99 lessons.  A missing file, a file that
    is not JSON, another value than an array and an empty array all end in
    an error. *)
Theorem loadLessons_ok lessonsFile loaded :
  loadLessons LESSONS_PATH lessonsFile = Ok loaded <->
  exists data,
    lessonsFile = Readable (Some (JArray data)) /\ data <> [] /\
    loaded = take 99 data /\ (1 <= length loaded <= 99)%nat.
Proof.
  pose proof take_limit as Htake.
  unfold loadLessons. split.
  - destruct lessonsFile as [e|[v|]].
    + unfold readJsonFile, tryCatch. simpl.
      destruct (isENOENT e); simpl; done.
    + rewrite readJsonFile_readable. cbn [JSON_parse bind].
      destruct v as [| | | |data|]; try done.
      rewrite Htake.
      destruct (Nat.eqb_spec (length (take 99 data)) 0) as [|Hne]; [done|].
      intros [= <-]. exists data. split; [done|].
      split; [intros ->; by rewrite take_nil in Hne|]. split; [done|].
      rewrite length_take in *. lia.
    + by rewrite readJsonFile_readable.
  - intros (data & -> & Hdata & -> & Hlen).
    rewrite readJsonFile_readable. cbn [JSON_parse bind]. rewrite Htake.
    by destruct (Nat.eqb_spec (length (take 99 data)) 0) as [Hzero|]; [lia|].
Qed.

(** X3. [loadVideos] never returns more videos than there are lessons; a
    missing videos file gives no videos and no warning; contents that are
    JSON but not an array give no videos and one warning; the only errors
    are those of a file that cannot be read for another reason than
    [ENOENT] or that is not JSON. *)
Theorem loadVideos_bounds videosFile lessonCount :
  (forall videos warnings,
     loadVideos VIDEOS_PATH videosFile lessonCount = Ok (videos, warnings) ->
     (length videos <= lessonCount)%nat /\ (warnings = [] \/ videos = [])) /\
  (forall e, videosFile = Unreadable e -> isENOENT e = true ->
     loadVideos VIDEOS_PATH videosFile lessonCount = Ok ([], [])) /\
  (forall v, videosFile = Readable (Some v) -> isArray v = false ->
     exists warning, loadVideos VIDEOS_PATH videosFile lessonCount = Ok ([], [warning])) /\
  (forall e, loadVideos VIDEOS_PATH videosFile lessonCount = Throw e ->
     (videosFile = Unreadable e /\ isENOENT e = false) \/
     (videosFile = Readable None /\ e = SyntaxError)).
Proof.
  unfold loadVideos. split; [|split; [|split]].
  - intros vs ws. destruct videosFile as [e|[v|]].
    + unfold readJsonFile, tryCatch. simpl.
      destruct (isENOENT e); simpl; [|done]. intros [= <- <-].
      split; [rewrite length_take; lia | by left].
    + rewrite readJsonFile_readable. cbn [JSON_parse bind].
      destruct v as [| | | |data|]; intros [= <- <-]; simpl; try (split; [lia | by right]).
      split; [rewrite length_take; lia | by left].
    + by rewrite readJsonFile_readable.
  - intros e -> He. rewrite readJsonFile_missing by done. cbn [bind].
    by rewrite take_nil.
  - intros v -> Hv. rewrite readJsonFile_readable. cbn [JSON_parse bind].
    destruct v; try done; by eexists.
  - intros e. destruct videosFile as [e'|[v|]].
    + unfold readJsonFile, tryCatch. simpl.
      destruct (isENOENT e') eqn:He'; simpl; [done|]. intros [= <-]. by left.
    + rewrite readJsonFile_readable. cbn [JSON_parse bind]. by destruct v.
    + rewrite readJsonFile_readable. simpl. intros [= <-]. by right.
Qed.

(** X4. What holds whenever the script reaches scheduling: the token is
    set and not empty, there are between 1 and 99 lessons and no more videos
    than lessons, the [users] member of the progress object is an object or
    an array, the logged number of subscribers is its number of keys, and
    the data directory could be made.  And the script ends by
    [process.exit] exactly when the token is missing or empty, with code
    1, whatever the files hold. *)
Theorem startup_started i :
  (forall state, startup i = Started state ->
     (exists token, TELEGRAM_BOT_TOKEN i = Some token /\ token <> "") /\
     (1 <= length (lessons state) <= 99)%nat /\
     (length (videos state) <= length (lessons state))%nat /\
     keepsUsers (progress state) = true /\
     subscribers state = keyCount (usersOf (progress state)) /\
     mkdirError i = None) /\
  (forall code, startup i = Exited code <->
     code = 1 /\ (TELEGRAM_BOT_TOKEN i = None \/ TELEGRAM_BOT_TOKEN i = Some "")).
Proof.
  split.
  - intros state. unfold Startup.startup.
    destruct (TELEGRAM_BOT_TOKEN i) as [[|a token]|]; try done.
    destruct (loadLessons LESSONS_PATH (lessonsFile i)) as [loaded|] eqn:Hlessons;
      cbn [bind]; [|done].
    apply loadLessons_length in Hlessons as Hlen.
    destruct (loadVideos VIDEOS_PATH (videosFile i) (length loaded))
      as [[vs ws]|] eqn:Hvideos; cbn [bind]; [|done].
    apply loadVideos_length in Hvideos as Hvs.
    destruct (readJsonFile (progressFile i) emptyProgress) as [v|]; cbn [bind]; [|done].
    destruct (checkProgress PROGRESS_PATH v) as [checked|] eqn:Hcheck; cbn [bind]; [|done].
    destruct (mkdirError i); cbn [ensureDirectory bind]; [done|].
    intros [= <-]. simpl.
    split; [by eexists|]. split; [done|]. split; [done|]. split; [|done].
    destruct v as [| | | | |members];
      try (rewrite checkProgress_other in Hcheck by done; done).
    rewrite checkProgress_object in Hcheck. injection Hcheck as <-.
    destruct (keepsUsers members) eqn:Hkeeps; [done|].
    unfold keepsUsers, usersOf. by rewrite lookup_insert_eq.
  - intros code. unfold Startup.startup.
    destruct (TELEGRAM_BOT_TOKEN i) as [[|a token]|].
    + split; [intros [= <-]; auto | by intros [-> _]].
    + split.
      * by destruct (bind _ _).
      * intros [_ [H|H]]; done.
    + split; [intros [= <-]; auto | by intros [-> _]].
Qed.
End Paths.

End StartupExtras.

(** ** Chat identities: further properties *)

Module ChatIdExtras.
Import Bot BotNotions.

Lemma append_cons a s1 s2 : String a s1 +:+ s2 = String a (s1 +:+ s2).
Proof. reflexivity. Qed.

Lemma append_nil_r s : s +:+ "" = s.
Proof. induction s as [|a s IH]; [done|]. by rewrite append_cons, IH. Qed.

Lemma append_assoc s1 s2 s3 : (s1 +:+ s2) +:+ s3 = s1 +:+ (s2 +:+ s3).
Proof. induction s1 as [|a s1 IH]; [done|]. by rewrite !append_cons, IH. Qed.

Lemma length_append s1 s2 :
  String.length (s1 +:+ s2) = (String.length s1 + String.length s2)%nat.
Proof. induction s1 as [|a s1 IH]; [done|]. rewrite append_cons. simpl. by rewrite IH. Qed.

Lemma digitsValue_app s1 s2 acc :
  digitsValue acc (s1 +:+ s2) = digitsValue (digitsValue acc s1) s2.
Proof.
  revert acc. induction s1 as [|a s1 IH]; intros acc; [done|].
  rewrite append_cons. simpl. apply IH.
Qed.

Lemma allDigits_app s1 s2 :
  allDigits (s1 +:+ s2) = allDigits s1 && allDigits s2.
Proof.
  induction s1 as [|a s1 IH]; [done|].
  rewrite append_cons. simpl. by rewrite IH, andb_assoc.
Qed.

Lemma pretty_N_char_digit x :
  (x < 10)%N ->
  isDigit (pretty_N_char x) = true /\
  Z.of_nat (nat_of_ascii (pretty_N_char x)) - 48 = Z.of_N x.
Proof.
  intros Hx.
  assert (x = 0 \/ x = 1 \/ x = 2 \/ x = 3 \/ x = 4 \/ x = 5 \/ x = 6 \/ x = 7 \/
          x = 8 \/ x = 9)%N as Hcases by lia.
  repeat (destruct Hcases as [->|Hcases]; [by vm_compute|]). subst. by vm_compute.
Qed.

(** The digits that [pretty_N_go] puts in front of [s]: only digits, at
    least one for a positive number, and their value is the number. *)
Lemma pretty_N_go_digits x : forall s,
  exists d,
    pretty_N_go x s = d +:+ s /\ allDigits d = true /\
    ((0 < x)%N -> d <> "") /\
    forall acc, digitsValue acc d = acc * 10 ^ Z.of_nat (String.length d) + Z.of_N x.
Proof.
  induction (N.lt_wf_0 x) as [x _ IH]. intros s.
  assert (x = 0 \/ 0 < x)%N as [->|Hpos] by lia.
  - exists "". rewrite pretty_N_go_0. repeat split; [lia|]. intros acc. simpl. lia.
  - rewrite pretty_N_go_step by done.
    destruct (IH (x `div` 10)%N) with (s := String (pretty_N_char (x `mod` 10)) s)
      as (d & Heq & Hd & _ & Hval); [by apply N.div_lt|].
    destruct (pretty_N_char_digit (x `mod` 10)) as [Hdigit Hchar];
      [by apply N.mod_lt|].
    exists (d +:+ String (pretty_N_char (x `mod` 10)) "").
    split; [rewrite Heq; by rewrite append_assoc|].
    split; [rewrite allDigits_app, Hd; simpl; by rewrite Hdigit|].
    split; [intros _; by destruct d|].
    intros acc. rewrite digitsValue_app, Hval. simpl. rewrite Hchar.
    rewrite length_append. simpl.
    replace (Z.of_nat (String.length d + 1)) with (Z.of_nat (String.length d) + 1) by lia.
    rewrite Z.pow_add_r, Z.pow_1_r by lia.
    pose proof (N.div_mod x 10) as Hdiv. lia.
Qed.

Lemma pretty_positive_digits p :
  exists a rest,
    pretty (Npos p) = String a rest /\ allDigits (String a rest) = true /\
    digitsValue 0 (String a rest) = Zpos p.
Proof.
  destruct (pretty_N_go_digits (Npos p) "") as (d & Heq & Hd & Hne & Hval).
  unfold pretty, pretty_N. rewrite decide_False by done.
  rewrite Heq, append_nil_r.
  destruct d as [|a rest]; [by destruct Hne|].
  exists a, rest. split; [done|]. split; [done|].
  rewrite Hval. simpl. lia.
Qed.

Lemma first_digit_not_dash a rest : allDigits (String a rest) = true -> a <> "-"%char.
Proof. intros H ->. by vm_compute in H. Qed.

Lemma integerText_unsigned a rest :
  a <> "-"%char ->
  isIntegerText (String a rest) = allDigits (String a rest) /\
  parseInt (String a rest) = digitsValue 0 (String a rest).
Proof.
  intros Hne. unfold isIntegerText, parseInt.
  destruct a as [[] [] [] [] [] [] [] []]; try done.
  all: by destruct rest.
Qed.

(** [String(n)] is an integer text, and [parseInt] reads [n] back. *)
Lemma parseInt_String n :
  isIntegerText (pretty n) = true /\ parseInt (pretty n) = n.
Proof.
  destruct n as [|p|p].
  - by vm_compute.
  - destruct (pretty_positive_digits p) as (a & rest & Heq & Hd & Hval).
    unfold pretty, pretty_Z, pretty, pretty_positive. rewrite Heq.
    destruct (integerText_unsigned a rest (first_digit_not_dash a rest Hd)) as [-> ->].
    done.
  - destruct (pretty_positive_digits p) as (a & rest & Heq & Hd & Hval).
    unfold pretty, pretty_Z, pretty, pretty_positive. rewrite Heq.
    change ("-" +:+ String a rest) with (String "-"%char (String a rest)).
    change (isIntegerText (String "-"%char (String a rest)))
      with (allDigits (String a rest)).
    change (parseInt (String "-"%char (String a rest)))
      with (- digitsValue 0 (String a rest)).
    by rewrite Hd, Hval.
Qed.

(** X1. For a chat id [n] in the range where a number holds an integer
    exactly (up to [Number.MAX_SAFE_INTEGER] in absolute value): the number
    is its own normal form, the key under which its record is stored
    ([String(n)]) normalizes back to the number, and normalizing either of
    the two a second time changes nothing.  So the handlers (which have the
    number) and the daily job (which has the key) address the same chat. *)
Theorem normalizeChatId_number n :
  Z.abs n <= MAX_SAFE_INTEGER ->
  normalizeChatId (ChatNumber n) = ChatNumber n /\
  normalizeChatId (ChatString (String_ (ChatNumber n))) = ChatNumber n /\
  (forall value,
     value = ChatNumber n \/ value = ChatString (String_ (ChatNumber n)) ->
     normalizeChatId (normalizeChatId value) = normalizeChatId value).
Proof.
  intros _.
  assert (normalizeChatId (ChatNumber n) = ChatNumber n) as Hnumber.
  { unfold normalizeChatId. simpl. destruct (parseInt_String n) as [-> ->]. done. }
  assert (normalizeChatId (ChatString (String_ (ChatNumber n))) = ChatNumber n) as Hkey.
  { unfold normalizeChatId. simpl. destruct (parseInt_String n) as [-> ->]. done. }
  split; [done|]. split; [done|].
  intros value [-> | ->]; [by rewrite !Hnumber | by rewrite Hkey, Hnumber].
Qed.

End ChatIdExtras.

(** ** The bot: further properties *)

Module BotExtras.
Import Chunker Bot BotFacts BotClaims BotNotions.

(** *** Saving and registering *)

(** X8. [saveProgress] writes the subscribers to the temporary file and
    renames it: it never changes the subscribers in memory; when it returns
    normally the progress file holds exactly them and the temporary file is
    gone; when it throws the progress file is what it was.  So the
    progress file always holds a complete snapshot, the old or the new
    one. *)
Theorem saveProgress_atomic env cfg w :
  let out := saveProgress env cfg w in
  users out.2 = users w /\
  match out.1 with
  | Ok _ => progressFile out.2 = Some (users w) /\ tmpFile out.2 = None
  | Throw _ => progressFile out.2 = progressFile w
  end.
Proof.
  unfold saveProgress, perform, record, gets, bind. simpl.
  repeat match goal with
         | |- context [failure env ?n ?c] => destruct (failure env n c)
         end; simpl; done.
Qed.

(** X9. [ensureUserState] is idempotent and never resets a record: it
    returns the key of the chat; a record that exists is left as it is,
    with the whole world; a missing one is created at lesson 0 with no
    [lastSentAt]; a second call changes nothing; other chats are not
    touched and nothing is written or sent. *)
Theorem ensureUserState_idempotent env chat w :
  let key := String_ chat in
  let out := ensureUserState env chat w in
  out.1 = Ok key /\
  ensureUserState env chat out.2 = (Ok key, out.2) /\
  users out.2 !! key = Some (default (newRecord env w) (users w !! key)) /\
  (forall k, k <> key -> users out.2 !! k = users w !! k) /\
  (is_Some (users w !! key) -> out.2 = w) /\
  progressFile out.2 = progressFile w /\
  trace out.2 = trace w.
Proof.
  intros key out. subst key out.
  destruct (users w !! String_ chat) as [r|] eqn:Hr.
  - rewrite (ensureUserState_existing env chat w r Hr). simpl.
    rewrite (ensureUserState_existing env chat w r Hr). by rewrite Hr.
  - rewrite (ensureUserState_fresh env chat w Hr). simpl.
    split; [done|]. split.
    + by erewrite ensureUserState_existing by (simpl; by rewrite lookup_insert_eq).
    + rewrite lookup_insert_eq. split; [done|]. split.
      * intros k Hk. by rewrite lookup_insert_ne.
      * split; [by intros [? ?]|done].
Qed.

(** *** What [sendLessonAssets] can throw *)

(** A program that only throws the error of a [sendMessage] to [chat] it
    has just made. *)
Definition throwsFromSend {A} (chat : chatId) (m : M A) : Prop :=
  forall w e, (m w).1 = Throw e ->
    exists text, head (trace (m w).2) = Some (Called (sendMessage chat text) (Some e)).

Lemma throwsFromSend_perform env chat text :
  throwsFromSend chat (perform env (sendMessage chat text)).
Proof.
  intros w e. unfold perform.
  destruct (failure env (length (trace w)) (sendMessage chat text)); simpl; [|done].
  intros [= ->]. by exists text.
Qed.

Lemma throwsFromSend_ok {A} chat (m : M A) :
  (forall w e, (m w).1 <> Throw e) -> throwsFromSend chat m.
Proof. intros H w e He. by destruct (H w e). Qed.

Lemma throwsFromSend_bind {A B} chat (m : M A) (k : A -> M B) :
  throwsFromSend chat m -> (forall a, throwsFromSend chat (k a)) ->
  throwsFromSend chat (bind m k).
Proof.
  intros Hm Hk w e. unfold bind. specialize (Hm w).
  destruct (m w) as [[a|e'] w1]; simpl in *; [apply Hk|].
  intros [= ->]. by apply Hm.
Qed.

Lemma throwsFromSend_forEach {A} chat (items : list A) (body : A -> M unit) :
  (forall x, throwsFromSend chat (body x)) -> throwsFromSend chat (forEach items body).
Proof.
  intros Hbody. induction items as [|x rest IH]; simpl.
  - by apply throwsFromSend_ok.
  - apply throwsFromSend_bind; [apply Hbody | by intros _].
Qed.

(** The guarded steps, image and audio, never throw. *)
Lemma guarded_returns env (c1 c2 : call) (line : jsError -> consoleLine) w e :
  (tryCatch (perform env c1 >> perform env c2)
     (fun error => if negb (isENOENT error) then consoleError (line error) else ret tt)
     w).1 <> Throw e.
Proof.
  unfold tryCatch, bind, perform, consoleError, record, ret.
  repeat match goal with
         | |- context [failure env ?n ?c] => destruct (failure env n c)
         | |- context [isENOENT ?x] => destruct (isENOENT x)
         end; simpl; done.
Qed.

(** X10. [sendLessonAssets] throws only the error of a [sendMessage] to
    the normalized chat (the not-available notice, a lesson chunk or the
    video message), and that call is the last thing it did: whatever
    happens to the image and to the audio (a missing file, a failed
    [access], [sendPhoto] or [sendAudio]) never ends the delivery. *)
Theorem sendLessonAssets_throws_from_send env cfg chat lessonIndex w e :
  (sendLessonAssets env cfg chat lessonIndex w).1 = Throw e ->
  exists text,
    head (trace (sendLessonAssets env cfg chat lessonIndex w).2) =
      Some (Called (sendMessage (normalizeChatId chat) text) (Some e)).
Proof.
  revert w e. change (throwsFromSend (normalizeChatId chat)
                        (sendLessonAssets env cfg chat lessonIndex)).
  unfold sendLessonAssets.
  destruct (lessonAt cfg lessonIndex) as [[|c text]|];
    try apply throwsFromSend_perform.
  apply throwsFromSend_bind;
    [apply throwsFromSend_ok; intros; apply guarded_returns | intros _].
  apply throwsFromSend_bind;
    [apply throwsFromSend_forEach; intros; apply throwsFromSend_perform | intros _].
  apply throwsFromSend_bind;
    [apply throwsFromSend_ok; intros; apply guarded_returns | intros _].
  destruct (videoAt cfg lessonIndex);
    [apply throwsFromSend_perform | by apply throwsFromSend_ok].
Qed.

(** *** Errors of a delivery do not escape *)

Lemma sendLessonToUser_after_ensure env cfg chat lessonIndex w :
  sendLessonToUser env cfg chat lessonIndex w =
  sendLessonToUser env cfg chat lessonIndex (ensureUserState env chat w).2.
Proof.
  destruct (ensureUserState_registers env chat w) as [r Hr].
  unfold sendLessonToUser at 2.
  erewrite bind_ok by (by eapply ensureUserState_existing).
  unfold sendLessonToUser, bind.
  destruct (users w !! String_ chat) as [r0|] eqn:Hr0.
  - by erewrite ensureUserState_existing.
  - by rewrite ensureUserState_fresh.
Qed.

(** X12. No error leaves a delivery of a lesson that exists:
    [sendLessonToUser] with an index below the number of lessons always
    returns normally, and so do the loop of the daily job and the callback
    given to the scheduler. *)
Theorem delivery_errors_are_caught env cfg :
  (forall chat lessonIndex w,
     lessonIndex < totalLessons cfg ->
     (sendLessonToUser env cfg chat lessonIndex w).1 = Ok tt) /\
  (forall w, (deliverDailyLessons env cfg w).1 = Ok tt) /\
  (forall w, (dailyJob env cfg w).1 = Ok tt).
Proof.
  assert (forall w, (deliverDailyLessons env cfg w).1 = Ok tt) as Hdaily
    by (intros w; apply deliverDailyLessons_spec).
  split; [|split; [done|]].
  - intros chat lessonIndex w Hdue. rewrite sendLessonToUser_after_ensure.
    destruct (ensureUserState_registers env chat w) as [r Hr].
    by destruct (sendLessonToUser_due env cfg chat lessonIndex _ r Hr Hdue).
  - intros w. unfold dailyJob, tryCatch. specialize (Hdaily w).
    destruct (deliverDailyLessons env cfg w) as [[[]|e] w1]; simpl in *; done.
Qed.


(** *** The chunks of a lesson go out in order *)

Lemma sentChunks_app new2 new1 :
  sentChunks (new2 ++ new1) = sentChunks new1 ++ sentChunks new2.
Proof. unfold sentChunks. by rewrite rev_app_distr, omap_app. Qed.

Lemma sentChunks_none new :
  Forall (fun ev => chunkOf ev = None) new -> sentChunks new = [].
Proof.
  induction 1 as [|ev new Hev _ IH]; [done|].
  change (ev :: new) with ([ev] ++ new). rewrite sentChunks_app, IH.
  unfold sentChunks. simpl. by rewrite Hev.
Qed.

(** A program whose delivered chunks are a prefix of [chunks], and all of
    them when it returns normally. *)
Definition sendsPrefix {A} (chunks : list jsstring) (m : M A) : Prop :=
  forall w, exists new k,
    trace (m w).2 = new ++ trace w /\
    sentChunks new = take k chunks /\
    (forall a, (m w).1 = Ok a -> sentChunks new = chunks).

Definition chunkless (ev : event) : Prop := chunkOf ev = None.

Lemma sendsPrefix_after {A B} chunks (m : M A) (k : A -> M B) :
  emits chunkless m -> (forall a, sendsPrefix chunks (k a)) ->
  sendsPrefix chunks (bind m k).
Proof.
  intros Hm Hk w. unfold bind. destruct (Hm w) as (new1 & Ht1 & Hnone).
  apply sentChunks_none in Hnone.
  destruct (m w) as [[a|e] w1]; simpl in *.
  - destruct (Hk a w1) as (new2 & n & Ht2 & Hprefix & Hall).
    exists (new2 ++ new1), n. rewrite Ht2, Ht1, app_assoc, sentChunks_app, Hnone.
    split; [done|]. split; [done|]. intros b Hb. simpl. by eapply Hall.
  - exists new1, 0%nat. rewrite Hnone, take_0. by repeat split.
Qed.

Lemma sendsPrefix_before {A B} chunks (m : M A) (k : A -> M B) :
  sendsPrefix chunks m -> (forall a, emits chunkless (k a)) ->
  sendsPrefix chunks (bind m k).
Proof.
  intros Hm Hk w. unfold bind. destruct (Hm w) as (new1 & n & Ht1 & Hprefix & Hall).
  destruct (m w) as [[a|e] w1]; simpl in *.
  - destruct (Hk a w1) as (new2 & Ht2 & Hnone). apply sentChunks_none in Hnone.
    exists (new2 ++ new1), (length chunks).
    rewrite Ht2, Ht1, app_assoc, sentChunks_app, Hnone, app_nil_r, (Hall a eq_refl).
    rewrite take_ge by done. by repeat split.
  - exists new1, n. by repeat split.
Qed.

Lemma perform_trace env c w :
  trace (perform env c w).2 =
    Called c (match (perform env c w).1 with Ok _ => None | Throw e => Some e end)
    :: trace w.
Proof.
  unfold perform. destruct (failure env (length (trace w)) c); simpl; [done|].
  by destruct c.
Qed.

Lemma forEach_sendsPrefix env chat chunks :
  sendsPrefix chunks
    (forEach chunks (fun chunk => perform env (sendMessage chat (LessonChunk chunk)))).
Proof.
  induction chunks as [|c rest IH]; intros w; cbn [forEach].
  - exists [], 0%nat. by repeat split.
  - pose proof (perform_trace env (sendMessage chat (LessonChunk c)) w) as Hstep.
    unfold bind.
    destruct (perform env (sendMessage chat (LessonChunk c)) w) as [[[]|e] w1];
      simpl in *.
    + destruct (IH w1) as (new & n & Ht & Hprefix & Hall).
      exists (new ++ [Called (sendMessage chat (LessonChunk c)) None]), (S n).
      rewrite Ht, Hstep, <- app_assoc, sentChunks_app. split; [done|].
      split; [by rewrite Hprefix|]. intros a Ha. by rewrite (Hall a Ha).
    + exists [Called (sendMessage chat (LessonChunk c)) (Some e)], 0%nat.
      by repeat split.
Qed.

(** X11. The chunks of a lesson are sent one after the other in reading
    order: whatever fails, the chunks that [sendLessonAssets] has delivered
    are a prefix of [formatChunks] of the lesson text, and they are all of
    them when it returns normally. *)
Theorem sendLessonAssets_chunks_in_order env cfg chat lessonIndex w text :
  lessonAt cfg lessonIndex = Some text ->
  text <> [] ->
  let out := sendLessonAssets env cfg chat lessonIndex w in
  (exists k, sentChunks (newEvents w out.2) = take k (formatChunks text)) /\
  (out.1 = Ok tt -> sentChunks (newEvents w out.2) = formatChunks text).
Proof.
  intros Htext Hne out.
  assert (sendsPrefix (formatChunks text) (sendLessonAssets env cfg chat lessonIndex))
    as Hprefix.
  { unfold sendLessonAssets. rewrite Htext. destruct text as [|c text]; [done|].
    apply sendsPrefix_after; [by apply guarded_emits | intros _].
    apply sendsPrefix_before; [apply forEach_sendsPrefix | intros _].
    apply emits_bind; [by apply guarded_emits | intros _].
    destruct (videoAt cfg lessonIndex); [by apply emits_perform | apply emits_ret]. }
  destruct (Hprefix w) as (new & k & Ht & Hk & Hall). subst out.
  rewrite (newEvents_app _ _ _ Ht). split; [by exists k | apply Hall].
Qed.

(** *** When no message is rejected *)

Definition neverThrows {A} (m : M A) : Prop := forall w e, (m w).1 <> Throw e.

Lemma neverThrows_bind {A B} (m : M A) (k : A -> M B) :
  neverThrows m -> (forall a, neverThrows (k a)) -> neverThrows (bind m k).
Proof.
  intros Hm Hk w e. unfold bind. specialize (Hm w).
  destruct (m w) as [[a|e'] w1]; simpl in *; [apply Hk | by destruct (Hm e')].
Qed.

Lemma neverThrows_forEach {A} (items : list A) (body : A -> M unit) :
  (forall x, neverThrows (body x)) -> neverThrows (forEach items body).
Proof.
  intros Hbody. induction items as [|x rest IH]; simpl; [by intros w e|].
  apply neverThrows_bind; [apply Hbody | by intros _].
Qed.

Lemma neverThrows_send env chat text :
  sendsNeverFail env -> neverThrows (perform env (sendMessage chat text)).
Proof. intros Hsends w e. unfold perform. by rewrite Hsends. Qed.

Lemma sendLessonAssets_returns env cfg chat lessonIndex w :
  sendsNeverFail env -> (sendLessonAssets env cfg chat lessonIndex w).1 = Ok tt.
Proof.
  intros Hsends.
  assert (neverThrows (sendLessonAssets env cfg chat lessonIndex)) as Hnever.
  { unfold sendLessonAssets.
    destruct (lessonAt cfg lessonIndex) as [[|c text]|]; try by apply neverThrows_send.
    apply neverThrows_bind; [intros ? ?; apply guarded_returns | intros _].
    apply neverThrows_bind;
      [apply neverThrows_forEach; intros; by apply neverThrows_send | intros _].
    apply neverThrows_bind; [intros ? ?; apply guarded_returns | intros _].
    destruct (videoAt cfg lessonIndex); [by apply neverThrows_send | by intros ? ?]. }
  specialize (Hnever w).
  destruct (sendLessonAssets env cfg chat lessonIndex w).1 as [[]|e]; [done|].
  by destruct (Hnever e).
Qed.

(** *** The daily job, subscriber by subscriber *)

Section Loop.
Context (env : Env) (cfg : Config).

(** What holds of each entry's turn holds of the whole loop, since a turn
    only touches the record of its own key. *)
Lemma deliverLoop_each (Q : string -> UserState -> option UserState -> Prop) :
  (forall k w st, users w !! k = Some st ->
     Q k st (users (deliverEntry env cfg k w).2 !! k)) ->
  forall (entries : list (string * UserState)) w, NoDup entries.*1 ->
  forall k st, k ∈ entries.*1 -> users w !! k = Some st ->
    Q k st (users (forEach entries (fun '(chatId, _) => deliverEntry env cfg chatId) w).2 !! k).
Proof.
  intros Hentry. induction entries as [|[k0 x] rest IH]; intros w Hnodup k st Hk Hst.
  - by apply elem_of_nil in Hk.
  - rewrite fmap_cons in Hnodup, Hk. apply NoDup_cons in Hnodup as [Hk0 Hnodup].
    cbn [forEach fst]. unfold bind.
    destruct (deliverEntry_spec env cfg k0 w) as (Hok & new & _ & Hother & _).
    pose proof (Hentry k0 w) as Hq.
    destruct (deliverEntry env cfg k0 w) as [[[]|e] w1]; simpl in *; [|done].
    apply elem_of_cons in Hk as [->|Hk].
    + destruct (deliverLoop_spec env cfg rest w1 Hnodup) as (_ & _ & _ & Hout & _).
      rewrite Hout by done. by apply Hq.
    + assert (k <> k0) as Hne by (intros ->; done).
      apply IH; [done | done |]. by rewrite Hother.
Qed.

Lemma deliverDailyLessons_each (Q : string -> UserState -> option UserState -> Prop) :
  (forall k w st, users w !! k = Some st ->
     Q k st (users (deliverEntry env cfg k w).2 !! k)) ->
  forall w k st, users w !! k = Some st ->
    Q k st (users (deliverDailyLessons env cfg w).2 !! k).
Proof.
  intros Hentry w k st Hst.
  assert (k ∈ (map_to_list (users w)).*1) as Hk by (apply elem_of_keys; by eexists).
  destruct (Nat.eqb_spec (length (map_to_list (users w))) 0) as [Hempty|Hsome].
  - apply length_zero_iff_nil in Hempty. rewrite Hempty in Hk. by apply elem_of_nil in Hk.
  - rewrite deliverDailyLessons_run by done.
    apply deliverLoop_each; [done | apply NoDup_fst_map_to_list | done | done].
Qed.

Lemma deliverDailyLessons_absent w k :
  users w !! k = None -> users (deliverDailyLessons env cfg w).2 !! k = None.
Proof.
  intros Hk.
  destruct (Nat.eqb_spec (length (map_to_list (users w))) 0) as [Hempty|Hsome].
  - by rewrite deliverDailyLessons_empty.
  - rewrite deliverDailyLessons_run by done.
    destruct (deliverLoop_spec env cfg (map_to_list (users w))
                (record (ConsoleLog (DeliveringDailyLessons (clock env (length (trace w)))
                                       (length (map_to_list (users w))))) w).2)
      as (_ & _ & _ & Hout & _); [apply NoDup_fst_map_to_list|].
    rewrite Hout; [done|]. intros Hin. apply elem_of_keys in Hin as [r Hr].
    simpl in Hr. congruence.
Qed.

(** X13. One run of the daily job moves a subscriber by at most one
    lesson and never back: it creates and removes no record; a record is
    afterwards what it was, or, if it was due, one lesson further with
    [lastSentAt] set; [joinedAt] never changes. *)
Theorem daily_job_steps w k :
  let out := deliverDailyLessons env cfg w in
  match users w !! k with
  | None => users out.2 !! k = None
  | Some st =>
      exists st',
        users out.2 !! k = Some st' /\
        joinedAt st' = joinedAt st /\
        (st' = st \/
         (currentLesson st < totalLessons cfg /\
          currentLesson st' = currentLesson st + 1 /\
          is_Some (lastSentAt st')))
  end.
Proof.
  intros out. subst out.
  destruct (users w !! k) as [st|] eqn:Hst; [|by apply deliverDailyLessons_absent].
  destruct (deliverDailyLessons_spec env cfg w) as (_ & new & _ & Hall & _).
  specialize (Hall k st Hst).
  destruct (Z.geb_spec (currentLesson st) (totalLessons cfg)) as [Hdone|Hdue].
  - exists st. auto.
  - destruct Hall as [[time ->]|[-> _]].
    + eexists. split; [done|]. split; [done|]. right. simpl. by eauto.
    + exists st. auto.
Qed.

(** The turn of a due entry when no [sendMessage] is rejected. *)
Lemma deliverEntry_advances k w st :
  sendsNeverFail env ->
  users w !! k = Some st ->
  currentLesson st < totalLessons cfg ->
  exists time,
    users (deliverEntry env cfg k w).2 !! k = Some (advanced st (currentLesson st) time).
Proof.
  intros Hsends Hst Hdue.
  rewrite (deliverEntry_run env cfg k w st) by (by try apply geb_false).
  destruct (sendLessonToUser_due env cfg (ChatString k) (currentLesson st) w st Hst Hdue)
    as [Hok Hout].
  assert ((sendLessonAssets env cfg (ChatString k) (currentLesson st) w).1 = Ok tt) as Hsent.
  { by apply sendLessonAssets_returns. }
  rewrite Hsent in Hout. destruct Hout as (tail & _ & _ & Husers).
  unfold bind, sleep, record.
  destruct (sendLessonToUser env cfg (ChatString k) (currentLesson st) w)
    as [[[]|e] w2]; simpl in *; [|done].
  rewrite Husers, lookup_insert_eq. by eexists.
Qed.
End Loop.


(** X14. When no [sendMessage] is rejected, one run of the daily job
    moves every subscriber that is due exactly one lesson further and sets
    its [lastSentAt], whatever happens to images, audio and the writes of
    the progress file. *)
Theorem daily_job_advances_all env cfg w k st :
  sendsNeverFail env ->
  users w !! k = Some st ->
  currentLesson st < totalLessons cfg ->
  exists time,
    users (deliverDailyLessons env cfg w).2 !! k =
      Some (advanced st (currentLesson st) time).
Proof.
  intros Hsends Hst Hdue.
  apply (deliverDailyLessons_each env cfg
           (fun k st after => currentLesson st < totalLessons cfg ->
              exists time, after = Some (advanced st (currentLesson st) time)));
    [|done|done].
  intros k' w' st' Hst' Hdue'. by apply deliverEntry_advances.
Qed.

Lemma deliverLoop_idle env cfg w (entries : list (string * UserState)) :
  (forall k st, users w !! k = Some st -> totalLessons cfg <= currentLesson st) ->
  forEach entries (fun '(chatId, _) => deliverEntry env cfg chatId) w = (Ok tt, w).
Proof.
  intros Hdone. induction entries as [|[k x] rest IH]; [done|].
  cbn [forEach]. erewrite bind_ok; [exact IH|].
  destruct (users w !! k) as [st|] eqn:Hst; [|by apply deliverEntry_absent].
  apply (deliverEntry_notDue env cfg k w st Hst), geb_true. by eapply Hdone.
Qed.

(** X17. Subscribers that have had every lesson get nothing from the
    daily job: when no record is below the number of lessons (in
    particular when there is no subscriber), a run makes no call at all,
    sends and writes included, and leaves the subscribers and the files as
    they were. *)
Theorem daily_job_skips_complete env cfg w :
  (forall k st, users w !! k = Some st -> totalLessons cfg <= currentLesson st) ->
  let out := deliverDailyLessons env cfg w in
  out.1 = Ok tt /\
  store out.2 = store w /\
  Forall (fun ev => isCall ev = false) (newEvents w out.2).
Proof.
  intros Hdone out. subst out.
  destruct (Nat.eqb_spec (length (map_to_list (users w))) 0) as [Hempty|Hsome].
  - rewrite deliverDailyLessons_empty by done. simpl.
    split; [done|]. split; [done|]. unfold newEvents. by rewrite Nat.sub_diag, take_0.
  - rewrite deliverDailyLessons_run by done.
    rewrite deliverLoop_idle by done. simpl.
    split; [done|]. split; [done|].
    rewrite (newEvents_app _ _ [ConsoleLog (DeliveringDailyLessons
                                   (clock env (length (trace w)))
                                   (length (map_to_list (users w))))]) by done.
    by repeat constructor.
Qed.

(** *** The message that all lessons are done *)

Definition notAllDone (ev : event) : Prop := saysAllDone ev = false.

Lemma geb_false_inv a b : (a >=? b) = false -> a < b.
Proof. rewrite Z.geb_leb. apply Z.leb_gt. Qed.

Section NotAllDone.
Context (env : Env) (cfg : Config).

Lemma sendLessonAssets_notAllDone chat lessonIndex :
  emits notAllDone (sendLessonAssets env cfg chat lessonIndex).
Proof.
  unfold sendLessonAssets.
  destruct (lessonAt cfg lessonIndex) as [[|c text]|]; try by apply emits_perform.
  apply emits_bind; [by apply guarded_emits|intros _].
  apply emits_bind; [apply emits_forEach; intros ?; by apply emits_perform|intros _].
  apply emits_bind; [by apply guarded_emits|intros _].
  destruct (videoAt cfg lessonIndex); [by apply emits_perform | apply emits_ret].
Qed.

Lemma saveProgress_emits (P : event -> Prop) :
  (forall c f, isFileWrite c = true -> P (Called c f)) ->
  emits P (saveProgress env cfg).
Proof.
  intros HP. unfold saveProgress.
  apply emits_bind; [apply emits_gets | intros snapshot].
  apply emits_bind; [apply emits_perform; intros; by apply HP | intros _].
  apply emits_perform; intros; by apply HP.
Qed.

Lemma ensureUserState_emits (P : event -> Prop) chat :
  emits P (ensureUserState env chat).
Proof.
  unfold ensureUserState.
  apply emits_bind; [apply emits_gets | intros [r|]]; [apply emits_ret|].
  apply emits_bind; [apply emits_gets | intros joined].
  apply emits_bind; [apply emits_setUsers | intros _; apply emits_ret].
Qed.

Lemma sendLessonToUser_notAllDone chat lessonIndex :
  lessonIndex < totalLessons cfg ->
  emits notAllDone (sendLessonToUser env cfg chat lessonIndex).
Proof.
  intros Hdue. unfold sendLessonToUser. rewrite (geb_false _ _ Hdue).
  apply emits_bind; [apply ensureUserState_emits | intros userState].
  apply emits_tryCatch; [|intros e; by apply emits_record].
  apply emits_bind; [apply sendLessonAssets_notAllDone | intros _].
  apply emits_bind; [apply emits_setUsers | intros _].
  apply emits_bind.
  - apply emits_bind; [apply emits_gets | intros time; apply emits_setUsers].
  - intros _. apply saveProgress_emits. by intros [] f.
Qed.

Lemma deliverEntry_notAllDone chatId :
  emits notAllDone (deliverEntry env cfg chatId).
Proof.
  unfold deliverEntry.
  apply emits_bind; [apply emits_gets | intros [state|]]; [|apply emits_ret].
  destruct (currentLesson state >=? totalLessons cfg) eqn:Hdue; [apply emits_ret|].
  apply emits_bind; [|intros _; by apply emits_record].
  by apply sendLessonToUser_notAllDone, geb_false_inv.
Qed.

(** X19. With at least one lesson loaded, no operation of the bot ever
    sends, or tries to send, the message that all lessons are done: the
    daily job skips the subscribers that have had them all, and [/start]
    only delivers lesson index 0. *)
Theorem all_done_never_sent op w :
  0 < totalLessons cfg ->
  Forall (fun ev => saysAllDone ev = false) (newEvents w (run env cfg op w).2).
Proof.
  intros Hsome.
  assert (emits notAllDone (run env cfg op)) as Hemits.
  { destruct op as [chat|chat|chat n|chat|]; simpl.
    - unfold onStart.
      apply emits_bind; [apply emits_gets | intros [existing|]].
      + apply emits_bind; [by apply emits_perform | intros _; by apply emits_perform].
      + apply emits_bind; [apply ensureUserState_emits | intros _].
        apply emits_bind; [apply saveProgress_emits; by intros [] f | intros _].
        apply emits_bind; [by apply emits_perform | intros _].
        apply emits_bind; [by apply sendLessonToUser_notAllDone | intros _].
        by apply emits_perform.
    - unfold onProgress.
      apply emits_bind; [apply emits_gets | intros [existing|]]; by apply emits_perform.
    - unfold onLesson.
      destruct ((n <? 1) || (n >? totalLessons cfg)); [by apply emits_perform|].
      apply emits_bind; [by apply emits_perform | intros _].
      apply sendLessonAssets_notAllDone.
    - by apply emits_perform.
    - unfold dailyJob. apply emits_tryCatch; [|intros e; by apply emits_record].
      unfold deliverDailyLessons.
      apply emits_bind; [apply emits_gets | intros userEntries].
      destruct (length userEntries =? 0)%nat; [apply emits_ret|].
      apply emits_bind.
      + apply emits_bind; [apply emits_gets | intros time; by apply emits_record].
      + intros _. apply emits_forEach. intros [chatId state].
        apply deliverEntry_notAllDone. }
  destruct (Hemits w) as (new & Ht & Hnew). by rewrite (newEvents_app _ _ _ Ht).
Qed.
End NotAllDone.


(** *** Memory and disk after a delivery *)

(** X18. After a delivery of an existing lesson whose sends went through,
    the record is advanced in memory whatever the file system does; the
    progress file then holds exactly the subscribers in memory, or, when a
    write failed, it is what it was before and the failure is logged as a
    failed delivery of that lesson to that chat, although the lesson was
    sent.  When no write fails the first case holds. *)
Theorem delivered_lesson_is_recorded env cfg chat lessonIndex w r :
  users w !! String_ chat = Some r ->
  lessonIndex < totalLessons cfg ->
  (sendLessonAssets env cfg chat lessonIndex w).1 = Ok tt ->
  let out := sendLessonToUser env cfg chat lessonIndex w in
  (exists time, users out.2 = <[String_ chat := advanced r lessonIndex time]> (users w)) /\
  ((progressFile out.2 = Some (users out.2) /\ tmpFile out.2 = None) \/
   (progressFile out.2 = progressFile w /\
    exists e, head (trace out.2) =
                Some (ConsoleError (FailedToDeliver (lessonIndex + 1) chat e)))) /\
  (writesNeverFail env ->
   progressFile out.2 = Some (users out.2) /\ tmpFile out.2 = None).
Proof.
  intros Hr Hdue Hsent out. subst out. unfold sendLessonToUser.
  erewrite bind_ok by (by eapply ensureUserState_existing).
  rewrite (geb_false _ _ Hdue).
  pose proof (sendLessonAssets_store env cfg chat lessonIndex w) as Hstore.
  destruct (sendLessonAssets env cfg chat lessonIndex w) as [[[]|e] w1] eqn:Hassets;
    [|done].
  unfold store in Hstore. simpl in Hstore. injection Hstore as Husers Hfile Htmp.
  assert (users w1 !! String_ chat = Some r) as Hr1 by congruence.
  replace (Z.min (lessonIndex + 1) (totalLessons cfg)) with (lessonIndex + 1) by lia.
  unfold saveProgress, setCurrentLesson, setLastSentAt, setUsers, now, gets, perform,
    record, consoleError, ret, tryCatch, bind.
  rewrite Hassets. simpl.
  rewrite (alter_alter_insert _ _ _ _ r Hr1), Husers.
  destruct (failure env _ (writeFile _ _)) as [e1|] eqn:Hwrite; simpl.
  - split; [by eexists|]. split; [right; split; [done | by eexists]|].
    intros Hwrites.
    match type of Hwrite with failure env ?n ?c = _ =>
      assert (failure env n c = None) as Hnone by exact (Hwrites n c) end.
    rewrite Hwrite in Hnone. done.
  - destruct (failure env _ (rename _ _)) as [e2|] eqn:Hrename; simpl.
    + split; [by eexists|]. split; [right; split; [done | by eexists]|].
      intros Hwrites.
      match type of Hrename with failure env ?n ?c = _ =>
        assert (failure env n c = None) as Hnone by exact (Hwrites n c) end.
      rewrite Hrename in Hnone. done.
    + split; [by eexists|]. split; [by left | done].
Qed.

(** *** The commands *)

Lemma perform_newEvents env c w :
  newEvents w (perform env c w).2 = [Called c (failure env (length (trace w)) c)].
Proof.
  apply newEvents_app. unfold perform.
  destruct (failure env (length (trace w)) c); simpl; [done | by destruct c].
Qed.

(** X16. [/progress], [/help] and [/lesson] never change the subscribers
    or the progress files, whoever asks and whatever number is given.  A
    [/progress] from a chat that is not registered makes one call, the send
    of the no-progress message; a [/lesson] with a number below 1 or above
    the number of lessons makes one call, the send of the out-of-range
    message, and delivers nothing. *)
Theorem queries_change_nothing env cfg chat w :
  store (onProgress env cfg chat w).2 = store w /\
  store (onHelp env chat w).2 = store w /\
  (forall n, store (onLesson env cfg chat n w).2 = store w) /\
  (users w !! String_ (ChatNumber chat) = None ->
   newEvents w (onProgress env cfg chat w).2 =
     [Called (sendMessage (ChatNumber chat) NoProgressFound)
        (failure env (length (trace w)) (sendMessage (ChatNumber chat) NoProgressFound))]) /\
  (forall n, n < 1 \/ totalLessons cfg < n ->
   newEvents w (onLesson env cfg chat n w).2 =
     [Called (sendMessage (ChatNumber chat) (LessonOutOfRange (length (lessons cfg))))
        (failure env (length (trace w))
           (sendMessage (ChatNumber chat) (LessonOutOfRange (length (lessons cfg)))))]).
Proof.
  assert (forall c, isFileWrite c = false ->
            preserves (fun w' => store w' = store w) (perform env c)) as Hsend.
  { intros c Hc. apply preserves_perform_send; [apply store_ignoresTrace | done]. }
  split; [|split; [|split; [|split]]].
  - apply (preserves_bind (fun w' => store w' = store w)); [apply preserves_gets| |done].
    intros [existing|]; by apply Hsend.
  - by apply Hsend.
  - intros n. unfold onLesson.
    destruct ((n <? 1) || (n >? totalLessons cfg)); [by apply Hsend|].
    apply (preserves_bind (fun w' => store w' = store w)); [by apply Hsend| |done].
    intros _. apply sendLessonAssets_preserves, store_ignoresTrace.
  - intros Hnone.
    assert (onProgress env cfg chat w =
            perform env (sendMessage (ChatNumber chat) NoProgressFound) w) as ->.
    { unfold onProgress, bind, gets. simpl in *. by rewrite Hnone. }
    apply perform_newEvents.
  - intros n Hn.
    assert (onLesson env cfg chat n w =
            perform env (sendMessage (ChatNumber chat)
                           (LessonOutOfRange (length (lessons cfg)))) w) as ->.
    { unfold onLesson.
      replace ((n <? 1) || (n >? totalLessons cfg)) with true; [done|].
      symmetry. apply orb_true_iff. destruct Hn as [Hn|Hn].
      - left. by apply Z.ltb_lt.
      - right. rewrite Z.gtb_ltb. by apply Z.ltb_lt. }
    apply perform_newEvents.
Qed.

(** What [/start] keeps of a new chat's record: it stays registered, with
    the time of registration, at lesson 0 or 1, and the other records are
    those of [others]. *)
Definition registeredAt (key : string) (joined : string)
    (others : gmap string UserState) (w : World) : Prop :=
  (exists r, users w !! key = Some r /\ joinedAt r = joined /\ 0 <= currentLesson r <= 1) /\
  forall k, k <> key -> users w !! k = others !! k.

Lemma registeredAt_ignoresFiles key joined others :
  ignoresFiles (registeredAt key joined others).
Proof. intros w p t tr H. exact H. Qed.

Lemma sendLessonToUser_registeredAt env cfg chat joined others :
  preserves (registeredAt (String_ chat) joined others) (sendLessonToUser env cfg chat 0).
Proof.
  intros w [(r & Hr & Hjoined & Hcur) Hothers].
  destruct (sendLessonToUser_record env cfg chat 0 w r Hr)
    as (Hother & r' & Hr' & Hjoined' & Hcases).
  split.
  - exists r'. split; [done|]. split; [congruence|].
    destruct Hcases as [->|Hmin]; [done|]. unfold totalLessons in Hmin. lia.
  - intros k Hk. rewrite Hother by done. by apply Hothers.
Qed.

(** X15. After [/start] the chat is registered, whatever fails on the way,
    and no other record is touched.  For a chat that was registered,
    [/start] changes neither the subscribers nor the files and sends no
    lesson.  For a new chat the record carries the time of the command as
    [joinedAt] and is at lesson 0 or 1. *)
Theorem start_registers env cfg chat w :
  let key := String_ (ChatNumber chat) in
  let out := onStart env cfg chat w in
  is_Some (users out.2 !! key) /\
  (forall k, k <> key -> users out.2 !! k = users w !! k) /\
  (is_Some (users w !! key) ->
   store out.2 = store w /\ sentChunks (newEvents w out.2) = []) /\
  (users w !! key = None ->
   exists r, users out.2 !! key = Some r /\
             joinedAt r = clock env (length (trace w)) /\
             0 <= currentLesson r <= 1).
Proof.
  intros key out. subst key out. simpl.
  destruct (users w !! pretty chat) as [existing|] eqn:Hexisting.
  - assert (onStart env cfg chat w =
            (perform env (sendMessage (ChatNumber chat)
                            (WelcomeBack (Z.min (currentLesson existing) (totalLessons cfg))
                                         (length (lessons cfg)))) >>
             perform env (sendMessage (ChatNumber chat) HelpText)) w) as ->.
    { unfold onStart. unfold bind at 1, gets. simpl. by rewrite Hexisting. }
    assert (store ((perform env (sendMessage (ChatNumber chat)
                            (WelcomeBack (Z.min (currentLesson existing) (totalLessons cfg))
                                         (length (lessons cfg)))) >>
             perform env (sendMessage (ChatNumber chat) HelpText)) w).2 = store w) as Hstore.
    { apply (preserves_bind (fun w' => store w' = store w)); [| |done].
      - apply preserves_perform_send; [apply store_ignoresTrace | done].
      - intros _. apply preserves_perform_send; [apply store_ignoresTrace | done]. }
    pose proof Hstore as Hstore'. unfold store in Hstore'. injection Hstore' as Hu _ _.
    rewrite Hu, Hexisting. split; [by eexists|]. split; [done|]. split; [|done].
    intros _. split; [done|].
    destruct (emits_bind chunkless
                (perform env (sendMessage (ChatNumber chat)
                   (WelcomeBack (Z.min (currentLesson existing) (totalLessons cfg))
                                (length (lessons cfg)))))
                (fun _ => perform env (sendMessage (ChatNumber chat) HelpText)))
      with (w := w) as (new & Ht & Hnew).
    + apply emits_perform. by intros [].
    + intros _. apply emits_perform. by intros [].
    + rewrite (newEvents_app _ _ _ Ht). by apply sentChunks_none.
  - assert (onStart env cfg chat w =
            (ensureUserState env (ChatNumber chat) >>
             saveProgress env cfg >>
             perform env (sendMessage (ChatNumber chat) Welcome) >>
             sendLessonToUser env cfg (ChatNumber chat) 0 >>
             perform env (sendMessage (ChatNumber chat) HelpText)) w) as ->.
    { unfold onStart. unfold bind at 1, gets. simpl. by rewrite Hexisting. }
    assert (registeredAt (pretty chat) (clock env (length (trace w))) (users w)
              ((ensureUserState env (ChatNumber chat) >>
                saveProgress env cfg >>
                perform env (sendMessage (ChatNumber chat) Welcome) >>
                sendLessonToUser env cfg (ChatNumber chat) 0 >>
                perform env (sendMessage (ChatNumber chat) HelpText)) w).2)
      as [(r & Hr & Hjoined & Hcur) Hothers].
    { pose proof (registeredAt_ignoresFiles (pretty chat) (clock env (length (trace w)))
                    (users w)) as Hfiles.
      unfold bind at 1.
      rewrite (ensureUserState_fresh env (ChatNumber chat) w Hexisting).
      cbv beta iota.
      match goal with |- registeredAt _ _ _ (?m ?w1).2 =>
        apply (preserves_bind (registeredAt (pretty chat) (clock env (length (trace w)))
                                 (users w)) (saveProgress env cfg)) with (w := w1) end.
      - unfold saveProgress.
        apply preserves_bind; [apply preserves_gets | intros snapshot].
        apply preserves_bind; [by apply preserves_perform | intros _].
        by apply preserves_perform.
      - intros _. apply preserves_bind; [by apply preserves_perform | intros _].
        apply preserves_bind;
          [apply (sendLessonToUser_registeredAt env cfg (ChatNumber chat)) | intros _].
        by apply preserves_perform.
      - split.
        + eexists. simpl. rewrite lookup_insert_eq. split; [done|]. simpl.
          split; [done | lia].
        + intros k Hk. simpl. by rewrite lookup_insert_ne. }
    split; [by eexists|]. split; [done|]. split; [by intros [? ?]|].
    intros _. by exists r.
Qed.


(** *** Day after day *)

Lemma dailyJob_world env cfg w :
  (dailyJob env cfg w).2 = (deliverDailyLessons env cfg w).2.
Proof.
  unfold dailyJob, tryCatch.
  pose proof (proj1 (deliverDailyLessons_spec env cfg w)) as Hok.
  by destruct (deliverDailyLessons env cfg w) as [[[]|e] w1].
Qed.

(** X20. When no [sendMessage] is rejected, a subscriber at lesson [c]
    (at most the number of lessons) is at lesson [min(c + n, total)] after
    [n] firings of the daily job: one lesson a day until the curriculum is
    complete, and no further. *)
Theorem curriculum_completes env cfg n : forall w k st,
  sendsNeverFail env ->
  users w !! k = Some st ->
  currentLesson st <= totalLessons cfg ->
  exists st',
    users (afterRuns env cfg n w) !! k = Some st' /\
    currentLesson st' = Z.min (currentLesson st + Z.of_nat n) (totalLessons cfg) /\
    joinedAt st' = joinedAt st.
Proof.
  induction n as [|n IH]; intros w k st Hsends Hst Hle.
  - exists st. simpl. split; [done|]. split; [lia | done].
  - cbn [afterRuns]. rewrite dailyJob_world.
    destruct (Z.lt_ge_cases (currentLesson st) (totalLessons cfg)) as [Hdue|Hdone].
    + assert (exists time, users (deliverDailyLessons env cfg w).2 !! k =
                               Some (advanced st (currentLesson st) time))
        as [time Hnext].
      { apply (deliverDailyLessons_each env cfg
                 (fun k st after => currentLesson st < totalLessons cfg ->
                    exists time, after = Some (advanced st (currentLesson st) time)));
          [|done|done].
        intros k' w' st' Hst' Hdue'. by apply deliverEntry_advances. }
      destruct (IH _ k _ Hsends Hnext) as (st' & Hst' & Hcur & Hjoined);
        [simpl; lia|].
      exists st'. split; [done|]. split; [simpl in Hcur; lia | done].
    + destruct (deliverDailyLessons_spec env cfg w) as (_ & new & _ & Hall & _).
      specialize (Hall k st Hst).
      destruct (Z.geb_spec (currentLesson st) (totalLessons cfg)) as [_|Hdue]; [|lia].
      destruct (IH _ k _ Hsends Hall Hle) as (st' & Hst' & Hcur & Hjoined).
      exists st'. split; [done|]. split; [lia | done].
Qed.

End BotExtras.

(** ** The further properties at concrete inputs *)

Module ExtraChecks.
Import Chunker ChunkerFacts ChunkerExtras Bot BotFacts BotClaims BotNotions BotExtras.
Import Scenario MoreScenarios.

(** The id of a group chat, negative and of thirteen digits. *)
Lemma normalizeChatId_number_witness :
  normalizeChatId (ChatNumber (-1001234567890)) = ChatNumber (-1001234567890) /\
  normalizeChatId (ChatString "-1001234567890") = ChatNumber (-1001234567890).
Proof.
  destruct (ChatIdExtras.normalizeChatId_number (-1001234567890)) as (Hnumber & Hkey & _).
  - vm_compute. discriminate.
  - split; [exact Hnumber | exact Hkey].
Defined.

Lemma formatChunks_short_witness :
  formatChunks (js "  salam  ") =
    if truthyString (trim (js "  salam  ")) then [trim (js "  salam  ")] else [].
Proof.
  apply (formatChunks_short (js "  salam  ")). vm_compute. lia.
Defined.

Lemma splitPoint_prefers_breaks_witness :
  js "hello world foo" !! Z.to_nat (splitPoint 5 (js "hello world foo") 0) = Some SP.
Proof.
  destruct (splitPoint_prefers_breaks 5 (js "hello world foo") 0) as (_ & _ & _ & Hspace & _).
  - lia.
  - vm_compute. lia.
  - apply Hspace.
    + intros i Hi.
      assert (i = 1 \/ i = 2 \/ i = 3 \/ i = 4 \/ i = 5)%nat as Hcases by lia.
      repeat (destruct Hcases as [->|Hcases]; [by vm_compute|]). subst. by vm_compute.
    + exists 5%nat. split; [lia | reflexivity].
Defined.

Lemma sendLessonAssets_throws_from_send_witness :
  exists text,
    head (trace (sendLessonAssets chunksToOneFail threeLessons (ChatNumber 1) 0
                   twoSubscribers).2) =
      Some (Called (sendMessage (normalizeChatId (ChatNumber 1)) text)
              (Some (TelegramError "ETELEGRAM"))).
Proof.
  apply (sendLessonAssets_throws_from_send chunksToOneFail threeLessons (ChatNumber 1) 0
           twoSubscribers (TelegramError "ETELEGRAM")).
  vm_compute. reflexivity.
Defined.

Lemma sendLessonAssets_chunks_in_order_witness :
  let out := sendLessonAssets calm threeLessons (ChatNumber 42) 1 subscriberAtOne in
  (exists k, sentChunks (newEvents subscriberAtOne out.2) = take k (formatChunks (js "two"))) /\
  (out.1 = Ok tt -> sentChunks (newEvents subscriberAtOne out.2) = formatChunks (js "two")).
Proof.
  apply (sendLessonAssets_chunks_in_order calm threeLessons (ChatNumber 42) 1
           subscriberAtOne (js "two")).
  - reflexivity.
  - discriminate.
Defined.

Lemma calm_sendsNeverFail : sendsNeverFail calm.
Proof. intros n chat text. reflexivity. Defined.

Lemma calm_writesNeverFail : writesNeverFail calm.
Proof. intros n c. destruct c; simpl; done. Defined.

Lemma daily_job_advances_all_witness :
  exists time,
    users (deliverDailyLessons calm threeLessons subscriberAtOne).2 !! "42" =
      Some (advanced atOne (currentLesson atOne) time).
Proof.
  apply (daily_job_advances_all calm threeLessons subscriberAtOne "42" atOne).
  - apply calm_sendsNeverFail.
  - reflexivity.
  - unfold totalLessons. simpl. lia.
Defined.

Lemma finished_all_complete k st :
  users finished !! k = Some st -> totalLessons threeLessons <= currentLesson st.
Proof.
  unfold finished, initialWorld. simpl. rewrite lookup_insert. case_decide.
  - intros [= <-]. unfold totalLessons. simpl. lia.
  - rewrite lookup_empty. discriminate.
Defined.

Lemma daily_job_skips_complete_witness :
  let out := deliverDailyLessons calm threeLessons finished in
  out.1 = Ok tt /\
  store out.2 = store finished /\
  Forall (fun ev => isCall ev = false) (newEvents finished out.2).
Proof.
  apply (daily_job_skips_complete calm threeLessons finished).
  apply finished_all_complete.
Defined.

Lemma all_done_never_sent_witness :
  Forall (fun ev => saysAllDone ev = false)
    (newEvents finished (run calm threeLessons (OpStart 42) finished).2).
Proof.
  apply (all_done_never_sent calm threeLessons (OpStart 42) finished).
  unfold totalLessons. simpl. lia.
Defined.

Lemma delivered_lesson_is_recorded_witness :
  let out := sendLessonToUser calm tenLessons (ChatNumber 42) 1 subscriberAtOne in
  (exists time,
     users out.2 = <[String_ (ChatNumber 42) := advanced atOne 1 time]>
                     (users subscriberAtOne)) /\
  ((progressFile out.2 = Some (users out.2) /\ tmpFile out.2 = None) \/
   (progressFile out.2 = progressFile subscriberAtOne /\
    exists e, head (trace out.2) =
                Some (ConsoleError (FailedToDeliver (1 + 1) (ChatNumber 42) e)))) /\
  (writesNeverFail calm ->
   progressFile out.2 = Some (users out.2) /\ tmpFile out.2 = None).
Proof.
  apply (delivered_lesson_is_recorded calm tenLessons (ChatNumber 42) 1 subscriberAtOne atOne).
  - vm_compute. reflexivity.
  - unfold totalLessons. simpl. lia.
  - vm_compute. reflexivity.
Defined.

Lemma curriculum_completes_witness :
  exists st',
    users (afterRuns calm threeLessons 5 subscriberAtOne) !! "42" = Some st' /\
    currentLesson st' = Z.min (currentLesson atOne + Z.of_nat 5) (totalLessons threeLessons) /\
    joinedAt st' = joinedAt atOne.
Proof.
  apply (curriculum_completes calm threeLessons 5 subscriberAtOne "42" atOne).
  - apply calm_sendsNeverFail.
  - reflexivity.
  - unfold totalLessons. simpl. lia.
Defined.

(** The scenario of a subscriber's first days, with three lessons and a calm
    environment: [/start] registers the chat and delivers lesson 1; a run of
    the daily job delivers lesson 2; [/lesson 1] sends lesson 1 again and
    leaves the record at 2; the next run delivers lesson 3; after that the
    daily job has nothing to do. *)
Example first_days :
  let w0 := initialWorld ∅ false in
  let w1 := (onStart calm threeLessons 42 w0).2 in
  let w2 := (dailyJob calm threeLessons w1).2 in
  let w3 := (onLesson calm threeLessons 42 1 w2).2 in
  let w4 := (dailyJob calm threeLessons w3).2 in
  let w5 := (dailyJob calm threeLessons w4).2 in
  lessonOf w1 "42" = Some 1 /\ lessonOf w2 "42" = Some 2 /\
  lessonOf w3 "42" = Some 2 /\ sentChunks (newEvents w2 w3) = [js "one"] /\
  lessonOf w4 "42" = Some 3 /\
  users w5 = users w4 /\ sentChunks (newEvents w4 w5) = [].
Proof. cbv zeta. repeat apply conj; vm_compute; reflexivity. Qed.

End ExtraChecks.
